(** * Markdown anchor tools: slug derivation and link replacement

    A shallow embedding of the three scripts of the repository:
    - [fix-anchors.py]: [remove_emojis], [create_github_anchor];
    - [fix-anchors-auto.py]: [fix_markdown_file] and the loop of [main];
    - [fix-links.py]: [fix_specific_issues].

    Python strings are sequences of Unicode code points; they are modelled
    as lists of [N].  The regular expressions of the scripts are character
    classes only, so each [re.sub] is written as the scanner it denotes. *)

From Stdlib Require Import NArith List String Ascii Bool Lia.
From stdpp Require Import gmap strings list.
Import ListNotations.
Local Open Scope N_scope.

(** ** Code points and strings *)

Module Unicode.

Definition codepoint := N.
Definition str := list codepoint.

Definition in_range (lo hi c : codepoint) : bool :=
  ((lo <=? c) && (c <=? hi)).

(** A string literal of the scripts whose characters are all ASCII. *)
Definition of_ascii (s : string) : str :=
  List.map N_of_ascii (list_ascii_of_string s).

Definition HASH : codepoint := 35.        (* '#' *)
Definition HYPHEN : codepoint := 45.      (* '-' *)
Definition UNDERSCORE : codepoint := 95.  (* '_' *)
Definition CAPITAL_SIGMA : codepoint := 0x3A3.
Definition FINAL_SIGMA : codepoint := 0x3C2.
Definition SMALL_SIGMA : codepoint := 0x3C3.

Definition is_ascii (c : codepoint) : bool := (c <? 128).

Definition ascii_isalnum (c : codepoint) : bool :=
  in_range 48 57 c || in_range 65 90 c || in_range 97 122 c.

Definition ascii_isalpha (c : codepoint) : bool :=
  in_range 65 90 c || in_range 97 122 c.

Definition ascii_isupper (c : codepoint) : bool := in_range 65 90 c.

Definition ascii_tolower (c : codepoint) : codepoint :=
  if ascii_isupper c then (c + 32) else c.

(** [\s] of a [str] pattern: the interpreter's whitespace predicate
    (bidirectional type WS, B or S, or category Zs). *)
Definition is_space (c : codepoint) : bool :=
  in_range 0x09 0x0D c || in_range 0x1C 0x1F c || (c =? 0x20)
  || (c =? 0x85) || (c =? 0xA0) || (c =? 0x1680)
  || in_range 0x2000 0x200A c || (c =? 0x2028) || (c =? 0x2029)
  || (c =? 0x202F) || (c =? 0x205F) || (c =? 0x3000).

(** [a == b] on strings *)
Fixpoint str_eqb (a b : str) : bool :=
  match a, b with
  | [], [] => true
  | x :: a', y :: b' => (x =? y) && str_eqb a' b'
  | _, _ => false
  end.

Fixpoint drop_while (p : codepoint -> bool) (s : str) : str :=
  match s with
  | [] => []
  | c :: rest => if p c then drop_while p rest else s
  end.

(** The parts of the Unicode character database that the scripts reach
    through [\w] and [str.lower] and that lie outside ASCII.  The database
    belongs to the interpreter, not to the repository, so it is a parameter
    of the development; inside ASCII every predicate below is fixed. *)
Record UnicodeData := {
  ud_isalnum : codepoint -> bool;             (* str.isalnum of one character *)
  ud_tolower : codepoint -> list codepoint;   (* full lower-case mapping *)
  ud_cased : codepoint -> bool;               (* property Cased *)
  ud_case_ignorable : codepoint -> bool       (* property Case_Ignorable *)
}.

(** A database that knows no letter, digit or case outside ASCII.  Inside
    ASCII the case-ignorable characters are the apostrophe, the full stop,
    the colon, the circumflex and the grave accent. *)
Definition ascii_only : UnicodeData := {|
  ud_isalnum := fun _ => false;
  ud_tolower := fun c => [c];
  ud_cased := ascii_isalpha;
  ud_case_ignorable := fun c =>
    (c =? 0x27) || (c =? 0x2E) || (c =? 0x3A) || (c =? 0x5E) || (c =? 0x60)
|}.

Section WithDatabase.
Variable U : UnicodeData.

Definition isalnum (c : codepoint) : bool :=
  if is_ascii c then ascii_isalnum c else ud_isalnum U c.

(** [\w] of a [str] pattern: alphanumeric, or the underscore. *)
Definition is_word (c : codepoint) : bool :=
  isalnum c || (c =? UNDERSCORE).

Definition tolower_full (c : codepoint) : list codepoint :=
  if is_ascii c then [ascii_tolower c] else ud_tolower U c.

(** The Final_Sigma context of a capital sigma: before it a cased
    character, then case-ignorable ones; after it no cased character
    once the case-ignorable ones are skipped.  [before] is the text in
    front of the sigma, nearest character first. *)
Definition final_sigma (before after : str) : bool :=
  match drop_while (ud_case_ignorable U) before with
  | [] => false
  | c :: _ =>
      ud_cased U c &&
      match drop_while (ud_case_ignorable U) after with
      | [] => true
      | d :: _ => negb (ud_cased U d)
      end
  end.

Definition lower_char (before : str) (c : codepoint) (after : str) : str :=
  if (c =? CAPITAL_SIGMA)
  then [if final_sigma before after then FINAL_SIGMA else SMALL_SIGMA]
  else tolower_full c.

Fixpoint lower_from (before s : str) : str :=
  match s with
  | [] => []
  | c :: rest => lower_char before c rest ++ lower_from (c :: before) rest
  end.

(** [str.lower()] *)
Definition lower (s : str) : str := lower_from [] s.

(** Every character that lower-casing [c] can put in the result. *)
Definition lower_images (c : codepoint) : list codepoint :=
  if (c =? CAPITAL_SIGMA) then [FINAL_SIGMA; SMALL_SIGMA]
  else tolower_full c.

(** Lower-casing leaves [d] as it is, in every context. *)
Definition lower_fixed (d : codepoint) : bool :=
  negb (d =? CAPITAL_SIGMA) && str_eqb (tolower_full d) [d].

(** Two facts of the Unicode case mappings: a lower-cased character is
    not lower-cased further, and no character outside the pictographic
    ranges has a lower-case form inside them. *)
Definition lower_closed : Prop :=
  forall c d, In d (lower_images c) -> lower_fixed d = true.

End WithDatabase.

End Unicode.

Import Unicode.

(** ** fix-anchors.py *)

Definition is_emoji (c : codepoint) : bool :=
  in_range 0x1F600 0x1F64F c || in_range 0x1F300 0x1F5FF c
  || in_range 0x1F680 0x1F6FF c || in_range 0x1F1E0 0x1F1FF c
  || in_range 0x2600 0x26FF c || in_range 0x2700 0x27BF c.

Definition lower_avoids_emoji (U : UnicodeData) : Prop :=
  forall c d,
    is_emoji c = false -> In d (lower_images U c) -> is_emoji d = false.

(** A character that a second run of the generator leaves alone. *)
Definition settled (U : UnicodeData) (d : codepoint) : bool :=
  lower_fixed U d && negb (is_emoji d).

(** [re.sub(class, '', text)]: delete every character of the class. *)
Fixpoint delete_class (p : codepoint -> bool) (s : str) : str :=
  match s with
  | [] => []
  | c :: rest => if p c then delete_class p rest else c :: delete_class p rest
  end.

Definition remove_emojis (text : str) : str := delete_class is_emoji text.

Definition is_hash (c : codepoint) : bool := (c =? HASH).
Definition is_hyphen (c : codepoint) : bool := (c =? HYPHEN).

(** [re.sub(r'^#+\s*', '', title)]: without [re.MULTILINE] the pattern can
    only match at the start, and needs one [#] at least. *)
Definition strip_marker (title : str) : str :=
  match title with
  | [] => []
  | c :: _ =>
      if is_hash c then drop_while is_space (drop_while is_hash title)
      else title
  end.

(** The class [[-\s]]. *)
Definition is_sep (c : codepoint) : bool := is_hyphen c || is_space c.

(** [re.sub(r'[-\s]+', '-', title)]: every maximal run becomes one hyphen.
    [in_run] tells that the previous character belonged to a run. *)
Fixpoint collapse_runs (in_run : bool) (s : str) : str :=
  match s with
  | [] => []
  | c :: rest =>
      if is_sep c
      then (if in_run then collapse_runs true rest
            else HYPHEN :: collapse_runs true rest)
      else c :: collapse_runs false rest
  end.

(** [title.strip('-')] *)
Definition strip_hyphens (s : str) : str :=
  rev (drop_while is_hyphen (rev (drop_while is_hyphen s))).

Section Anchor.
Variable U : UnicodeData.

(** The class [[^\w\s-]]. *)
Definition is_special (c : codepoint) : bool :=
  negb (is_word U c || is_space c || is_hyphen c).

(** The value of [title] just before the return statement. *)
Definition slug (title : str) : str :=
  let title := strip_marker title in
  let title := remove_emojis title in
  let title := lower U title in
  let title := delete_class is_special title in
  let title := collapse_runs false title in
  strip_hyphens title.

Definition create_github_anchor (title : str) : str :=
  HASH :: slug title.

End Anchor.

(** *** The same function over untyped values

    The scripts are dynamically typed: a call of [re.sub] raises
    [TypeError] on anything but a string, a method call raises
    [AttributeError] on [None]. *)

Module Dyn.

Inductive value := VStr (s : str) | VNone.
Inductive exn := TypeError | AttributeError.

Definition bind {A B} (m : exn + A) (k : A -> exn + B) : exn + B :=
  match m with
  | inl e => inl e
  | inr a => k a
  end.

Definition re_sub (f : str -> str) (v : value) : exn + value :=
  match v with
  | VStr s => inr (VStr (f s))
  | VNone => inl TypeError
  end.

Definition method (f : str -> str) (v : value) : exn + value :=
  match v with
  | VStr s => inr (VStr (f s))
  | VNone => inl AttributeError
  end.

(** [f"#{title}"]: formatting accepts every value. *)
Definition format_anchor (v : value) : exn + value :=
  match v with
  | VStr s => inr (VStr (HASH :: s))
  | VNone => inr (VStr (HASH :: of_ascii "None"))
  end.

Definition remove_emojis (text : value) : exn + value :=
  re_sub (delete_class is_emoji) text.

Definition create_github_anchor (U : UnicodeData) (title : value)
  : exn + value :=
  bind (re_sub strip_marker title) (fun title =>
  bind (remove_emojis title) (fun title =>
  bind (method (lower U) title) (fun title =>
  bind (re_sub (delete_class (is_special U)) title) (fun title =>
  bind (re_sub (collapse_runs false) title) (fun title =>
  bind (method strip_hyphens title) (fun title =>
  format_anchor title)))))).

End Dyn.

(** *** The AnchorSlug invariant, as the specification words it *)

Definition is_slug_char (c : codepoint) : bool :=
  in_range 97 122 c || in_range 48 57 c || is_hyphen c.

Fixpoint no_double_hyphen (s : str) : bool :=
  match s with
  | [] => true
  | c :: rest =>
      match rest with
      | d :: _ => negb (is_hyphen c && is_hyphen d) && no_double_hyphen rest
      | [] => true
      end
  end.

Definition no_leading_hyphen (s : str) : bool :=
  match s with
  | c :: _ => negb (is_hyphen c)
  | [] => true
  end.

Definition no_trailing_hyphen (s : str) : bool := no_leading_hyphen (rev s).

Definition hyphens_ok (s : str) : bool :=
  no_leading_hyphen s && no_trailing_hyphen s && no_double_hyphen s.

Definition AnchorSlug (a : str) : bool :=
  match a with
  | c :: t => is_hash c && forallb is_slug_char t && hyphens_ok t
  | [] => false
  end.

(** What the code keeps instead: a hyphen, or a character of [\w] that is
    neither whitespace nor a hyphen. *)
Definition is_kept_char (U : UnicodeData) (c : codepoint) : bool :=
  is_hyphen c || (is_word U c && negb (is_space c)).

Definition WordSlug (U : UnicodeData) (a : str) : bool :=
  match a with
  | c :: t => is_hash c && forallb (is_kept_char U) t && hyphens_ok t
  | [] => false
  end.

Definition is_ascii_slug_char (c : codepoint) : bool :=
  is_slug_char c || (c =? UNDERSCORE).

(** The same, with the lower-case part of the invariant: each character
    after the [#] is moreover left unchanged by lower-casing and, when it
    is ASCII, is a lower-case letter, a digit, a hyphen or the
    underscore. *)
Definition is_lower_kept_char (U : UnicodeData) (c : codepoint) : bool :=
  is_kept_char U c && lower_fixed U c
  && (negb (is_ascii c) || is_ascii_slug_char c).

Definition LowerWordSlug (U : UnicodeData) (a : str) : bool :=
  match a with
  | c :: t => is_hash c && forallb (is_lower_kept_char U) t && hyphens_ok t
  | [] => false
  end.

(** ** Substring search and replacement *)

Fixpoint starts_with (p s : str) : bool :=
  match p, s with
  | [], _ => true
  | _ :: _, [] => false
  | a :: p', b :: s' => (a =? b) && starts_with p' s'
  end.

(** [sub in s] *)
Fixpoint contains (sub s : str) : bool :=
  starts_with sub s ||
  match s with
  | [] => false
  | _ :: rest => contains sub rest
  end.

(** The scan of [s.replace(old, new)] for a non-empty [old]: occurrences
    are taken from left to right and do not overlap.  [skip] counts the
    characters of the occurrence just replaced that are still to be
    passed over. *)
Fixpoint replace_scan (skip : nat) (old new s : str) : str :=
  match s with
  | [] => []
  | c :: rest =>
      match skip with
      | S k => replace_scan k old new rest
      | O =>
          if starts_with old s
          then new ++ replace_scan (Nat.pred (length old)) old new rest
          else c :: replace_scan O old new rest
      end
  end.

(** [s.replace(old, new)]; an empty [old] matches before every character
    and at the end. *)
Definition replace (old new s : str) : str :=
  match old with
  | [] => new ++ flat_map (fun c => c :: new) s
  | _ :: _ => replace_scan O old new s
  end.

(** ** Files, console and exceptions *)

Definition path := string.

(** A regular file or a directory.  [content] is what the bytes of the
    file decode to as UTF-8, its line ends as they are stored; a byte that
    does not decode stands in it as a lone surrogate (the surrogate-escape
    reading of the bytes), so the strict decoder of [open] fails exactly
    on a content that holds a surrogate. *)
Inductive node :=
| File (content : str)
| Dir.

Definition LINE_FEED : codepoint := 10.
Definition CARRIAGE_RETURN : codepoint := 13.

Definition is_surrogate (c : codepoint) : bool := in_range 0xD800 0xDFFF c.

(** The strict UTF-8 codec accepts this text. *)
Definition encodable (s : str) : bool :=
  forallb (fun c => negb (is_surrogate c)) s.

(** Reading in text mode with the default [newline=None]: the line ends
    ["\r\n"] and ["\r"] come back as ["\n"]. *)
Fixpoint universal_newlines (s : str) : str :=
  match s with
  | [] => []
  | c :: rest =>
      if c =? CARRIAGE_RETURN
      then LINE_FEED ::
           match rest with
           | d :: rest' =>
               if d =? LINE_FEED then universal_newlines rest'
               else universal_newlines rest
           | [] => []
           end
      else c :: universal_newlines rest
  end.

(** What [open(p, 'r', encoding='utf-8').read()] gives for a node, if it
    gives a text. *)
Definition node_text (n : option node) : option str :=
  match n with
  | Some (File content) =>
      if encodable content then Some (universal_newlines content) else None
  | _ => None
  end.

Inductive message :=
| MsgNotFound (p : path)
| MsgFixing (p : path)
| MsgFixed (old_link new_link : str)
| MsgSaved (changes_made : nat) (p : path)
| MsgNoChanges (p : path)
| MsgFixedDoubleDash (p : path)
| MsgBanner
| MsgRule
| MsgBlank
| MsgCompleted (total_files_changed : nat)
| MsgAllLinks.

(** The exceptions that file access raises in the scripts. *)
Inductive os_error :=
| FileNotFoundError (p : path)
| IsADirectoryError (p : path)
| UnicodeDecodeError (p : path)
| UnicodeEncodeError (p : path).

(** The part of the world the scripts touch: the files by name, the log of
    every write in order, and the lines printed. *)
Record world := World {
  files : gmap string node;
  writes : list (path * str);
  stdout : list message
}.

(** State and exception monad of the scripts. *)
Definition M (A : Type) : Type := world -> (os_error + A) * world.

Definition ret {A} (a : A) : M A := fun w => (inr a, w).

Definition raise {A} (e : os_error) : M A := fun w => (inl e, w).

Definition mbind {A B} (m : M A) (k : A -> M B) : M B :=
  fun w =>
    match m w with
    | (inl e, w') => (inl e, w')
    | (inr a, w') => k a w'
    end.

Notation "x <- m ;; k" := (mbind m (fun x => k))
  (at level 100, m at next level, right associativity).
Notation "m ;;; k" := (mbind m (fun _ => k))
  (at level 100, right associativity).

(** [print]: the console takes every line, whatever its characters (its
    encoding and error handler belong to the environment, not to the
    scripts). *)
Definition print (m : message) : M unit :=
  fun w => (inr tt, World (files w) (writes w) (stdout w ++ [m])).

(** [os.path.exists] *)
Definition path_exists (p : path) : M bool :=
  fun w => (inr (bool_decide (is_Some (files w !! p))), w).

Definition not_cr (c : codepoint) : bool := negb (c =? CARRIAGE_RETURN).

(** The text of the file at [p] as the scripts read it. *)
Definition file_text (w : world) (p : path) : option str :=
  node_text (files w !! p).

(** [open(p, 'r', encoding='utf-8').read()]: the bytes are decoded
    strictly, then the line ends are translated. *)
Definition read_text (p : path) : M str :=
  fun w =>
    match files w !! p with
    | Some (File content) =>
        if encodable content then (inr (universal_newlines content), w)
        else (inl (UnicodeDecodeError p), w)
    | Some Dir => (inl (IsADirectoryError p), w)
    | None => (inl (FileNotFoundError p), w)
    end.

(** [open(p, 'w', encoding='utf-8').write(content)]: opening truncates the
    file; the text is encoded as a whole before any byte is written, so a
    text that the codec refuses leaves the file empty.  The line separator
    of the system is ["\n"], so line ends are written as they are. *)
Definition write_text (p : path) (content : str) : M unit :=
  fun w =>
    match files w !! p with
    | Some Dir => (inl (IsADirectoryError p), w)
    | _ =>
        if encodable content
        then (inr tt,
              World (<[p := File content]> (files w))
                    (writes w ++ [(p, content)]) (stdout w))
        else (inl (UnicodeEncodeError p),
              World (<[p := File []]> (files w))
                    (writes w ++ [(p, [])]) (stdout w))
    end.

(** ** fix-anchors-auto.py *)

Definition fixes_t := list (str * str).

(** The [for old_link, new_link in fixes] loop, from the current values of
    [content] and [changes_made]. *)
Fixpoint apply_fixes (fixes : fixes_t) (content : str) (changes_made : nat)
  : M (str * nat) :=
  match fixes with
  | [] => ret (content, changes_made)
  | (old_link, new_link) :: rest =>
      if contains old_link content
      then print (MsgFixed old_link new_link) ;;;
           apply_fixes rest (replace old_link new_link content)
                       (S changes_made)
      else apply_fixes rest content changes_made
  end.

Definition fix_markdown_file (filepath : path) (fixes : fixes_t) : M bool :=
  found <- path_exists filepath ;;
  if negb found
  then print (MsgNotFound filepath) ;;; ret false
  else
    content <- read_text filepath ;;
    print (MsgFixing filepath) ;;;
    r <- apply_fixes fixes content 0%nat ;;
    let (content, changes_made) := r in
    if (0 <? changes_made)%nat
    then write_text filepath content ;;;
         print (MsgSaved changes_made filepath) ;;;
         ret true
    else print (MsgNoChanges filepath) ;;; ret false.

Definition rule (stale corrected : string) : str * str :=
  (of_ascii stale, of_ascii corrected).

Definition readme_fixes : fixes_t := [
  rule "(#overview)" "(#overview)";
  rule "(#prerequisites)" "(#prerequisites)";
  rule "(#installation)" "(#installation)";
  rule "(#quick-start)" "(#quick-start)";
  rule "(#commands)" "(#commands)";
  rule "(#building-from-source)" "(#building-from-source)";
  rule "(#basic-testing)" "(#basic-testing)";
  rule "(#technical-details)" "(#technical-details)";
  rule "(#documentation)" "(#documentation)";
  rule "(#license)" "(#license)" ].

Definition examples_fixes : fixes_t := [
  rule "(#quick-start-examples)" "(#quick-start-examples)";
  rule "(#real-world-use-cases)" "(#real-world-use-cases)";
  rule "(#advanced-scenarios)" "(#advanced-scenarios)";
  rule "(#docker-examples)" "(#docker-examples)";
  rule "(#automation-scripts)" "(#automation-scripts)" ].

Definition troubleshooting_fixes : fixes_t := [
  rule "(#diagnostic-commands)" "(#diagnostic-commands)";
  rule "(#common-scenarios)" "(#common-scenarios)";
  rule "(#step-by-step-guide)" "(#step-by-step-guide)";
  rule "(#environment-issues)" "(#environment-issues)";
  rule "(#performance-problems)" "(#performance-problems)";
  rule "(#docker-issues)" "(#docker-issues)";
  rule "(#debug-mode)" "(#debug-mode)" ].

Definition docker_fixes : fixes_t := [
  rule "(#quick-start)" "(#quick-start)";
  rule "(#installation)" "(#installation)";
  rule "(#basic-usage)" "(#basic-usage)";
  rule "(#docker-compose)" "(#docker-compose)";
  rule "(#volume-management)" "(#volume-management)";
  rule "(#production-usage)" "(#production-usage)";
  rule "(#troubleshooting)" "(#troubleshooting)" ].

Definition enterprise_fixes : fixes_t := [
  rule "(#security-best-practices)" "(#security-best-practices)";
  rule "(#performance-best-practices)" "(#performance-best-practices)";
  rule "(#operational-best-practices)" "(#operational-best-practices)";
  rule "(#monitoring--alerting)" "(#monitoring-alerting)";
  rule "(#compliance--auditing)" "(#compliance-auditing)";
  rule "(#production-deployment)" "(#production-deployment)" ].

Definition automation_fixes : fixes_t := [
  rule "(#daily-operations-scripts)" "(#daily-operations-scripts)";
  rule "(#backup-and-recovery-scripts)" "(#backup-and-recovery-scripts)";
  rule "(#monitoring-and-health-checks)" "(#monitoring-and-health-checks)";
  rule "(#cicd-integration-scripts)" "(#cicd-integration-scripts)";
  rule "(#maintenance-scripts)" "(#maintenance-scripts)";
  rule "(#docker-automation)" "(#docker-automation)";
  rule "(#troubleshooting-scripts)" "(#troubleshooting-scripts)" ].

Definition integration_fixes : fixes_t := [
  rule "(#cicd-integration)" "(#cicd-integration)";
  rule "(#rest-api-integration)" "(#rest-api-integration)";
  rule "(#monitoring-integration)" "(#monitoring-integration)";
  rule "(#enterprise-systems-integration)" "(#enterprise-systems-integration)";
  rule "(#cloud-integration-patterns)" "(#cloud-integration-patterns)";
  rule "(#security-integration)" "(#security-integration)" ].

Definition files_to_fix : list (path * fixes_t) := [
  ("README.md"%string, readme_fixes);
  ("EXAMPLES.md"%string, examples_fixes);
  ("TROUBLESHOOTING.md"%string, troubleshooting_fixes);
  ("DOCKER_GUIDE.md"%string, docker_fixes);
  ("ENTERPRISE_GUIDE.md"%string, enterprise_fixes);
  ("AUTOMATION_SCRIPTS.md"%string, automation_fixes);
  ("INTEGRATION_PATTERNS.md"%string, integration_fixes) ].

(** The [for filename, fixes in files_to_fix] loop of [main], from the
    current value of [total_files_changed]. *)
Fixpoint main_loop (todo : list (path * fixes_t)) (total_files_changed : nat)
  : M nat :=
  match todo with
  | [] => ret total_files_changed
  | (filename, fixes) :: rest =>
      changed <- fix_markdown_file filename fixes ;;
      print MsgBlank ;;;
      main_loop rest
        (if changed then S total_files_changed else total_files_changed)
  end.

Definition main : M unit :=
  print MsgBanner ;;;
  print MsgRule ;;;
  total_files_changed <- main_loop files_to_fix 0%nat ;;
  print MsgRule ;;;
  print (MsgCompleted total_files_changed) ;;;
  print MsgAllLinks.

(** ** fix-links.py *)

Definition enterprise_file : path := "ENTERPRISE_GUIDE.md"%string.

(** The first block of [fix_specific_issues], which repairs
    ENTERPRISE_GUIDE.md and yields [fixes_applied]; the scan of the other
    files that follows it only prints and is not modelled. *)
Definition fix_specific_issues : M nat :=
  found <- path_exists enterprise_file ;;
  if found
  then
    print (MsgFixing enterprise_file) ;;;
    content <- read_text enterprise_file ;;
    let original_content := content in
    let content :=
      replace (of_ascii "(#monitoring--alerting)")
              (of_ascii "(#monitoring-alerting)") content in
    let content :=
      replace (of_ascii "(#compliance--auditing)")
              (of_ascii "(#compliance-auditing)") content in
    if negb (str_eqb content original_content)
    then write_text enterprise_file content ;;;
         print (MsgFixedDoubleDash enterprise_file) ;;;
         ret 1%nat
    else print (MsgNoChanges enterprise_file) ;;; ret 0%nat
  else ret 0%nat.

(** ** The replacement pass, as a fold over the rule list *)

(** One rule: replace all occurrences, applied only when the stale link
    occurs. *)
Definition apply_rule (content : str) (r : str * str) : str :=
  if contains (fst r) content then replace (fst r) (snd r) content
  else content.

Definition fold_rules (fixes : fixes_t) (content : str) : str :=
  fold_left apply_rule fixes content.

(** Some rule found its stale link in the content as it stood at the
    rule's turn. *)
Fixpoint rule_found (fixes : fixes_t) (content : str) : bool :=
  match fixes with
  | [] => false
  | r :: rest =>
      contains (fst r) content || rule_found rest (apply_rule content r)
  end.

(** ** The scenario of the specification and sample data *)

Definition monitoring_stale : str := of_ascii "(#monitoring--alerting)".
Definition monitoring_fixed : str := of_ascii "(#monitoring-alerting)".
Definition compliance_stale : str := of_ascii "(#compliance--auditing)".
Definition compliance_fixed : str := of_ascii "(#compliance-auditing)".

(** The character [h] does not occur in [s]. *)
Definition lacks (h : codepoint) (s : str) : bool :=
  forallb (fun c => negb (c =? h)) s.

Definition sample_readme : str := of_ascii "See (#overview) first.".
Definition sample_guide : str :=
  of_ascii "Read (#monitoring--alerting) and (#compliance--auditing).".

(** A working directory with two of the seven documents. *)
Definition sample_world : world :=
  World (<["README.md"%string := File sample_readme]>
           (<["ENTERPRISE_GUIDE.md"%string := File sample_guide]> ∅))
        [] [].



(** ** Vocabulary of the further properties *)

(** The node [n'] is the node [n], or [n] was a readable file and [n'] is
    that file with its CRLF and CR line ends turned into LF. *)
Definition line_ends_normalised (n n' : option node) : Prop :=
  n' = n \/
  exists raw, n = Some (File raw) /\ encodable raw = true /\
              n' = Some (File (universal_newlines raw)).

(** Every rule of the table maps a link to itself. *)
Definition identity_rules (fixes : fixes_t) : Prop :=
  forall r, In r fixes -> fst r = snd r.

(** [sep.join(words)] *)
Fixpoint join (sep : str) (words : list str) : str :=
  match words with
  | [] => []
  | w :: rest =>
      match rest with
      | [] => w
      | _ :: _ => w ++ sep ++ join sep rest
      end
  end.

(** A lower-case ASCII letter, a digit or the underscore. *)
Definition is_plain (c : codepoint) : bool :=
  in_range 97 122 c || in_range 48 57 c || (c =? UNDERSCORE).

(** A non-empty word of such characters. *)
Definition plain_word (w : str) : bool :=
  match w with
  | [] => false
  | _ :: _ => forallb is_plain w
  end.

Definition SPACE : codepoint := 32.

(** ** The scripts that only read and report *)

Definition NEWLINE : codepoint := 10.
Definition LPAREN : codepoint := 40.
Definition RPAREN : codepoint := 41.

Definition not_newline (c : codepoint) : bool := negb (c =? NEWLINE).

Fixpoint collect {A B} (f : A -> option B) (l : list A) : list B :=
  match l with
  | [] => []
  | a :: rest =>
      match f a with
      | Some b => b :: collect f rest
      | None => collect f rest
      end
  end.

(** [content.split('\n')]: the lines that [^] and [$] delimit under
    [re.MULTILINE]. *)
Fixpoint split_lines (s : str) : list str :=
  match s with
  | [] => [[]]
  | c :: rest =>
      if c =? NEWLINE then [] :: split_lines rest
      else match split_lines rest with
           | line :: lines => (c :: line) :: lines
           | [] => [[c]]
           end
  end.

(** The group of [^## (.+)$] on one line: the line starts with ["## "] and
    goes on with one character at least; [.] matches all but the newline,
    so the group is the rest of the line. *)
Definition header_title (line : str) : option str :=
  if starts_with (of_ascii "## ") line
  then match skipn 3 line with
       | [] => None
       | c :: rest => Some (c :: rest)
       end
  else None.

(** [re.findall(r'^## (.+)$', content, re.MULTILINE)] *)
Definition find_headers (content : str) : list str :=
  collect header_title (split_lines content).

(** A title that a header line can carry: not empty, no newline. *)
Definition good_title (t : str) : bool :=
  negb (str_eqb t []) && forallb not_newline t.

(** [text.strip()] *)
Definition strip_space (s : str) : str :=
  rev (drop_while is_space (rev (drop_while is_space s))).

Inductive report :=
| RepProcessing (p : path)
| RepHeader (header anchor : str)
| RepBlank
| RepAnalyzing
| RepRule (width : nat)
| RepAnalysisComplete
| RepToFix
| RepUseAnchors
| RepChecking (p : path)
| RepIssuesIn (p : path)
| RepIssue (link : str)
| RepNoIssues (p : path).

(** Monad of the code that reads files and prints: the files are an
    environment, the printed lines an output, and an exception ends the
    run with the lines printed so far. *)
Definition R (A : Type) : Type :=
  gmap string node -> (os_error + A) * list report.

Definition rret {A} (a : A) : R A := fun _ => (inr a, []).

Definition rbind {A B} (m : R A) (k : A -> R B) : R B :=
  fun fs =>
    match m fs with
    | (inl e, out) => (inl e, out)
    | (inr a, out) =>
        match k a fs with
        | (r, out') => (r, out ++ out')
        end
    end.

Notation "x <~ m ;; k" := (rbind m (fun x => k))
  (at level 100, m at next level, right associativity).
Notation "m ;;~ k" := (rbind m (fun _ => k))
  (at level 100, right associativity).

Definition say (m : report) : R unit := fun _ => (inr tt, [m]).

Definition rexists (p : path) : R bool :=
  fun fs => (inr (bool_decide (is_Some (fs !! p))), []).

(** [open(p, 'r', encoding='utf-8').read()], as [read_text]. *)
Definition rread (p : path) : R str :=
  fun fs =>
    match fs !! p with
    | Some (File content) =>
        if encodable content then (inr (universal_newlines content), [])
        else (inl (UnicodeDecodeError p), [])
    | Some Dir => (inl (IsADirectoryError p), [])
    | None => (inl (FileNotFoundError p), [])
    end.

(** *** fix-anchors.py, the analysis *)

Section Analysis.
Variable U : UnicodeData.

(** The key under which a header is stored. *)
Definition header_key (header : str) : str :=
  lower U (strip_space (remove_emojis header)).

(** One assignment [anchor_map[key] = anchor]. *)
Definition record (m : gmap (list N) (list N)) (h : str)
  : gmap (list N) (list N) :=
  <[header_key h := create_github_anchor U h]> m.

(** The [for header in headers] loop, from the current [anchor_map]. *)
Fixpoint record_headers (headers : list str)
  (anchor_map : gmap (list N) (list N)) : R (gmap (list N) (list N)) :=
  match headers with
  | [] => rret anchor_map
  | header :: rest =>
      let original_anchor := create_github_anchor U header in
      let clean_title := strip_space (remove_emojis header) in
      let anchor_map := <[lower U clean_title := original_anchor]> anchor_map in
      say (RepHeader header original_anchor) ;;~
      record_headers rest anchor_map
  end.

Definition process_markdown_file (filepath : path)
  : R (gmap (list N) (list N)) :=
  say (RepProcessing filepath) ;;~
  content <~ rread filepath ;;
  let headers := find_headers content in
  record_headers headers ∅.

Definition md_files : list path := [
  "README.md"; "EXAMPLES.md"; "TROUBLESHOOTING.md"; "DOCKER_GUIDE.md";
  "ENTERPRISE_GUIDE.md"; "AUTOMATION_SCRIPTS.md";
  "INTEGRATION_PATTERNS.md" ]%string.

(** The [for filename in md_files] loop of the analysis. *)
Fixpoint analysis_loop (todo : list path) : R unit :=
  match todo with
  | [] => rret tt
  | filename :: rest =>
      found <~ rexists filename ;;
      (if found
       then anchor_map <~ process_markdown_file filename ;; say RepBlank
       else rret tt) ;;~
      analysis_loop rest
  end.

Definition analysis_main : R unit :=
  say RepAnalyzing ;;~
  say (RepRule 60) ;;~
  analysis_loop md_files ;;~
  say RepAnalysisComplete ;;~
  say RepToFix ;;~
  say RepUseAnchors.

End Analysis.

(** *** fix-links.py, the check of the other files *)

Fixpoint take_while (p : codepoint -> bool) (s : str) : str :=
  match s with
  | [] => []
  | c :: rest => if p c then c :: take_while p rest else []
  end.

Definition not_rparen (c : codepoint) : bool := negb (c =? RPAREN).

(** Where [s] starts with ["(#"]: the characters up to the first [)], if
    there is one.  Both patterns of the check have the form
    [\(#[^)]*X[^)]*\)], so a match at this place is this text between
    ["(#"] and [")"], and there is one exactly when the text contains
    [X]. *)
Definition link_body (s : str) : option str :=
  match s with
  | a :: b :: rest =>
      if (a =? LPAREN) && (b =? HASH)
      then match drop_while not_rparen rest with
           | [] => None
           | _ :: _ => Some (take_while not_rparen rest)
           end
      else None
  | _ => None
  end.

Definition link_text (body : str) : str :=
  LPAREN :: HASH :: body ++ [RPAREN].

(** [re.findall] of such a pattern: matches are taken from left to right
    and do not overlap; [skip] counts the characters of the last match
    still to be passed over. *)
Fixpoint find_links (ok : str -> bool) (skip : nat) (s : str) : list str :=
  match s with
  | [] => []
  | c :: rest =>
      match skip with
      | S k => find_links ok k rest
      | O =>
          match link_body s with
          | Some body =>
              if ok body
              then link_text body :: find_links ok (length body + 2) rest
              else find_links ok O rest
          | None => find_links ok O rest
          end
      end
  end.

(** [re.findall(r'\(#[^)]*--[^)]*\)', content)] *)
Definition double_dash_links (content : str) : list str :=
  find_links (contains (of_ascii "--")) O content.

(** [re.findall] of the pattern with the emoji class in the middle. *)
Definition emoji_links (content : str) : list str :=
  find_links (existsb is_emoji) O content.

(** The value of [issues_found] for one file. *)
Definition issues_found (content : str) : list str :=
  (if contains (of_ascii "--") content && contains (of_ascii "(#") content
   then double_dash_links content
   else [])
  ++ emoji_links content.

Fixpoint say_issues (issues : list str) : R unit :=
  match issues with
  | [] => rret tt
  | issue :: rest => say (RepIssue issue) ;;~ say_issues rest
  end.

Definition other_md_files : list path := [
  "README.md"; "EXAMPLES.md"; "TROUBLESHOOTING.md"; "DOCKER_GUIDE.md";
  "AUTOMATION_SCRIPTS.md"; "INTEGRATION_PATTERNS.md" ]%string.

(** The second loop of [fix_specific_issues], over the files other than
    ENTERPRISE_GUIDE.md. *)
Fixpoint check_files (todo : list path) : R unit :=
  match todo with
  | [] => rret tt
  | filename :: rest =>
      found <~ rexists filename ;;
      (if found
       then say (RepChecking filename) ;;~
            content <~ rread filename ;;
            match issues_found content with
            | [] => say (RepNoIssues filename)
            | issue :: more =>
                say (RepIssuesIn filename) ;;~ say_issues (issue :: more)
            end
       else rret tt) ;;~
      check_files rest
  end.

(** A document with two headers, and a directory that holds it. *)
Definition sample_headers_doc : str :=
  join [NEWLINE] [of_ascii "# Guide"; of_ascii "## Monitoring & Alerting";
                  of_ascii "Some text."; of_ascii "## Quick Start"].

Definition sample_docs : gmap string node :=
  <["ENTERPRISE_GUIDE.md"%string := File sample_headers_doc]> ∅.

(** * Properties *)

(** ** Characters *)

Lemma is_hyphen_eq c : is_hyphen c = true -> c = HYPHEN.
Proof. unfold is_hyphen. apply N.eqb_eq. Qed.

Lemma space_not_hyphen c : is_space c = true -> is_hyphen c = false.
Proof.
  intros Hs. destruct (is_hyphen c) eqn:E; [|reflexivity].
  apply is_hyphen_eq in E. subst c. discriminate Hs.
Qed.

Lemma space_not_hash c : is_space c = true -> is_hash c = false.
Proof.
  intros Hs. destruct (is_hash c) eqn:E; [|reflexivity].
  apply N.eqb_eq in E. subst c. discriminate Hs.
Qed.

Lemma emoji_not_hash c : is_emoji c = true -> is_hash c = false.
Proof.
  intros Hs. destruct (is_hash c) eqn:E; [|reflexivity].
  apply N.eqb_eq in E. subst c. discriminate Hs.
Qed.

Lemma kept_not_space U c : is_kept_char U c = true -> is_space c = false.
Proof.
  unfold is_kept_char. intros H. apply orb_true_iff in H as [H|H].
  - destruct (is_space c) eqn:E; [|reflexivity].
    apply space_not_hyphen in E. congruence.
  - apply andb_true_iff in H as [_ H]. now apply negb_true_iff in H.
Qed.

Lemma kept_not_hash U c : is_kept_char U c = true -> is_hash c = false.
Proof.
  intros H. destruct (is_hash c) eqn:E; [|reflexivity].
  apply N.eqb_eq in E. subst c. discriminate H.
Qed.

Lemma kept_not_special U c : is_kept_char U c = true -> is_special U c = false.
Proof.
  unfold is_kept_char, is_special. intros H. apply negb_false_iff.
  apply orb_true_iff in H as [H|H].
  - rewrite H. apply orb_true_r.
  - apply andb_true_iff in H as [H _]. now rewrite H.
Qed.

Lemma kept_sep_hyphen U c :
  is_kept_char U c = true -> is_sep c = true -> c = HYPHEN.
Proof.
  intros Hk Hs. unfold is_sep in Hs. rewrite (kept_not_space U c Hk) in Hs.
  rewrite orb_false_r in Hs. now apply is_hyphen_eq.
Qed.

(** An ASCII character that is not upper case and survives both deletions
    is a lower-case letter, a digit, or the underscore. *)
Lemma ascii_survivor U c :
  is_ascii c = true -> ascii_isupper c = false ->
  is_special U c = false -> is_sep c = false ->
  is_ascii_slug_char c = true.
Proof.
  intros Ha Hu Hs Hsep.
  unfold is_sep in Hsep. apply orb_false_iff in Hsep as [Hh Hsp].
  unfold is_special in Hs. apply negb_false_iff in Hs.
  rewrite Hsp, Hh, !orb_false_r in Hs.
  unfold is_word, isalnum in Hs. rewrite Ha in Hs.
  unfold is_ascii_slug_char, is_slug_char.
  apply orb_true_iff in Hs as [Hs|Hs]; [|rewrite Hs; apply orb_true_r].
  unfold ascii_isalnum in Hs. unfold ascii_isupper in Hu. rewrite Hu in Hs.
  rewrite orb_false_r in Hs.
  destruct (in_range 97 122 c), (in_range 48 57 c); simpl in *;
    try reflexivity; discriminate.
Qed.

(** ** Scanners *)

Lemma drop_while_suffix p s :
  exists u, s = u ++ drop_while p s /\ forallb p u = true.
Proof.
  induction s as [|c s IH]; simpl.
  - now exists [].
  - destruct (p c) eqn:E.
    + destruct IH as (u & Hu & Hp). exists (c :: u). simpl.
      rewrite E, <- Hu. auto.
    + now exists [].
Qed.

Lemma drop_while_head p s :
  match drop_while p s with
  | c :: _ => p c = false
  | [] => True
  end.
Proof.
  induction s as [|c s IH]; simpl; [exact I|].
  destruct (p c) eqn:E; [exact IH|exact E].
Qed.

Lemma drop_while_id p s :
  match s with c :: _ => p c = false | [] => True end ->
  drop_while p s = s.
Proof. destruct s as [|c s]; simpl; [reflexivity|]. now intros ->. Qed.

Lemma drop_while_app p u v :
  forallb p u = true -> drop_while p (u ++ v) = drop_while p v.
Proof.
  induction u as [|c u IH]; simpl; [reflexivity|].
  intros H. apply andb_true_iff in H as [-> H]. auto.
Qed.

Lemma forallb_drop_while q p s :
  forallb q s = true -> forallb q (drop_while p s) = true.
Proof.
  intros H. destruct (drop_while_suffix p s) as (u & Hu & _).
  rewrite Hu, forallb_app in H. now apply andb_true_iff in H as [_ H].
Qed.

Lemma forallb_impl {A} (p q : A -> bool) (s : list A) :
  (forall c, p c = true -> q c = true) ->
  forallb p s = true -> forallb q s = true.
Proof.
  intros Hpq. induction s as [|c s IH]; simpl; [reflexivity|].
  intros H. apply andb_true_iff in H as [Hc Hs].
  now rewrite (Hpq c Hc), IH.
Qed.

Lemma forallb_and {A} (p q : A -> bool) (s : list A) :
  forallb p s = true -> forallb q s = true ->
  forallb (fun c => p c && q c) s = true.
Proof.
  induction s as [|c s IH]; simpl; [reflexivity|].
  intros H1 H2. apply andb_true_iff in H1 as [-> H1].
  apply andb_true_iff in H2 as [-> H2]. simpl. auto.
Qed.

Lemma delete_class_forallb q p s :
  forallb q s = true -> forallb q (delete_class p s) = true.
Proof.
  induction s as [|c s IH]; simpl; [reflexivity|].
  intros H. apply andb_true_iff in H as [Hc Hs].
  destruct (p c); simpl; [auto|]. now rewrite Hc, IH.
Qed.

Lemma delete_class_clean p s :
  forallb (fun c => negb (p c)) (delete_class p s) = true.
Proof.
  induction s as [|c s IH]; simpl; [reflexivity|].
  destruct (p c) eqn:E; simpl; [exact IH|]. now rewrite E, IH.
Qed.

Lemma delete_class_id p s :
  forallb (fun c => negb (p c)) s = true -> delete_class p s = s.
Proof.
  induction s as [|c s IH]; simpl; [reflexivity|].
  intros H. apply andb_true_iff in H as [Hc Hs].
  apply negb_true_iff in Hc. rewrite Hc. now rewrite IH.
Qed.

Lemma delete_class_all p s :
  forallb p s = true -> delete_class p s = [].
Proof.
  induction s as [|c s IH]; simpl; [reflexivity|].
  intros H. apply andb_true_iff in H as [-> Hs]. auto.
Qed.

Lemma strip_marker_forallb q s :
  forallb q s = true -> forallb q (strip_marker s) = true.
Proof.
  intros H. destruct s as [|c s]; [reflexivity|].
  unfold strip_marker. destruct (is_hash c); [|exact H].
  now do 2 apply forallb_drop_while.
Qed.

(** What [collapse_runs] emits is a hyphen or a character of the input
    outside the class [[-\s]]. *)
Lemma collapse_runs_forallb q b s :
  forallb q s = true ->
  forallb (fun c => is_hyphen c || (q c && negb (is_sep c)))
          (collapse_runs b s) = true.
Proof.
  revert b. induction s as [|c s IH]; intros b H; simpl; [reflexivity|].
  simpl in H. apply andb_true_iff in H as [Hc Hs].
  destruct (is_sep c) eqn:E.
  - destruct b; [now apply IH|].
    cbn [forallb]. rewrite (IH true Hs). reflexivity.
  - cbn [forallb]. rewrite Hc, E, (IH false Hs). simpl.
    now rewrite orb_true_r.
Qed.

Lemma no_double_hyphen_cons c d r :
  no_double_hyphen (c :: d :: r) =
  negb (is_hyphen c && is_hyphen d) && no_double_hyphen (d :: r).
Proof. reflexivity. Qed.

Lemma collapse_runs_hyphens b s :
  no_double_hyphen (collapse_runs b s) = true /\
  (b = true -> no_leading_hyphen (collapse_runs b s) = true).
Proof.
  revert b. induction s as [|c s IH]; intros b; simpl; [auto|].
  destruct (is_sep c) eqn:E.
  - destruct b.
    + apply IH.
    + split; [|discriminate].
      destruct (IH true) as [Hd Hl]. specialize (Hl eq_refl).
      change (no_double_hyphen (HYPHEN :: collapse_runs true s) = true).
      destruct (collapse_runs true s) as [|d r] eqn:Er; [reflexivity|].
      simpl in Hl. rewrite no_double_hyphen_cons.
      apply negb_true_iff in Hl. rewrite Hl, andb_false_r. exact Hd.
  - assert (Hh : is_hyphen c = false).
    { unfold is_sep in E. now apply orb_false_iff in E as [E _]. }
    split.
    + destruct (IH false) as [Hd _].
      change (no_double_hyphen (c :: collapse_runs false s) = true).
      destruct (collapse_runs false s) as [|d r] eqn:Er; [reflexivity|].
      rewrite no_double_hyphen_cons, Hh. exact Hd.
    + intros _. simpl. now rewrite Hh.
Qed.

(** [strip('-')] returns a contiguous piece of its argument. *)
Lemma strip_hyphens_infix s :
  exists u v, s = u ++ strip_hyphens s ++ v.
Proof.
  unfold strip_hyphens.
  destruct (drop_while_suffix is_hyphen s) as (u & Hu & _).
  destruct (drop_while_suffix is_hyphen (rev (drop_while is_hyphen s)))
    as (v & Hv & _).
  exists u, (rev v). rewrite <- rev_app_distr, <- Hv, rev_involutive.
  exact Hu.
Qed.

Lemma no_double_hyphen_tail c s :
  no_double_hyphen (c :: s) = true -> no_double_hyphen s = true.
Proof.
  destruct s as [|d r]; [reflexivity|]. rewrite no_double_hyphen_cons.
  intros H. now apply andb_true_iff in H as [_ H].
Qed.

Lemma no_double_hyphen_app_r u s :
  no_double_hyphen (u ++ s) = true -> no_double_hyphen s = true.
Proof.
  induction u as [|c u IH]; [auto|]. intros H. apply IH.
  eapply no_double_hyphen_tail, H.
Qed.

Lemma no_double_hyphen_app_l s v :
  no_double_hyphen (s ++ v) = true -> no_double_hyphen s = true.
Proof.
  induction s as [|c s IH]; [reflexivity|]. intros H.
  destruct s as [|d r]; [reflexivity|].
  change (no_double_hyphen (c :: d :: (r ++ v)) = true) in H.
  rewrite no_double_hyphen_cons in H |- *.
  apply andb_true_iff in H as [-> H]. apply IH. exact H.
Qed.

Lemma strip_hyphens_no_double s :
  no_double_hyphen s = true -> no_double_hyphen (strip_hyphens s) = true.
Proof.
  intros H. destruct (strip_hyphens_infix s) as (u & v & E).
  rewrite E in H. eapply no_double_hyphen_app_l, no_double_hyphen_app_r, H.
Qed.

Lemma strip_hyphens_forallb q s :
  forallb q s = true -> forallb q (strip_hyphens s) = true.
Proof.
  intros H. destruct (strip_hyphens_infix s) as (u & v & E).
  rewrite E, !forallb_app in H.
  apply andb_true_iff in H as [_ H]. now apply andb_true_iff in H as [H _].
Qed.

Lemma no_leading_hyphen_drop s :
  no_leading_hyphen (drop_while is_hyphen s) = true.
Proof.
  pose proof (drop_while_head is_hyphen s) as H. unfold no_leading_hyphen.
  destruct (drop_while is_hyphen s); [reflexivity|]. now rewrite H.
Qed.

Lemma no_leading_hyphen_prefix s v :
  no_leading_hyphen (s ++ v) = true -> no_leading_hyphen s = true.
Proof. destruct s; auto. Qed.

Lemma strip_hyphens_ends s : 
  no_leading_hyphen (strip_hyphens s) = true /\
  no_trailing_hyphen (strip_hyphens s) = true.
Proof.
  unfold no_trailing_hyphen, strip_hyphens. rewrite rev_involutive. split.
  - destruct (drop_while_suffix is_hyphen (rev (drop_while is_hyphen s)))
      as (v & Hv & _).
    apply (f_equal (@rev _)) in Hv. rewrite rev_involutive, rev_app_distr in Hv.
    pose proof (no_leading_hyphen_drop s) as H. rewrite Hv in H.
    eapply no_leading_hyphen_prefix, H.
  - apply no_leading_hyphen_drop.
Qed.

Lemma strip_hyphens_ok s :
  no_double_hyphen s = true -> hyphens_ok (strip_hyphens s) = true.
Proof.
  intros H. unfold hyphens_ok. destruct (strip_hyphens_ends s) as [-> ->].
  now rewrite strip_hyphens_no_double.
Qed.

(** ** Lower-casing *)

Lemma str_eqb_eq a b : str_eqb a b = true <-> a = b.
Proof.
  revert b. induction a as [|x a IH]; intros [|y b]; simpl;
    try (split; [discriminate|discriminate]); [tauto|].
  rewrite andb_true_iff, N.eqb_eq, IH. split.
  - now intros [-> ->].
  - intros E. now inversion E.
Qed.

Lemma lower_char_images U before c after d :
  In d (lower_char U before c after) -> In d (lower_images U c).
Proof.
  unfold lower_char, lower_images. destruct (c =? CAPITAL_SIGMA); [|auto].
  destruct (final_sigma U before after); simpl; tauto.
Qed.

Lemma lower_from_images U s : forall before d,
  In d (lower_from U before s) ->
  exists c, In c s /\ In d (lower_images U c).
Proof.
  induction s as [|c s IH]; simpl; intros before d H; [contradiction|].
  apply in_app_or in H as [H|H].
  - exists c. split; [now left|]. eapply lower_char_images, H.
  - destruct (IH _ _ H) as (c' & Hin & Him). exists c'. auto.
Qed.

Lemma lower_from_fixed U s : forall before,
  forallb (lower_fixed U) s = true -> lower_from U before s = s.
Proof.
  induction s as [|c s IH]; simpl; intros before H; [reflexivity|].
  apply andb_true_iff in H as [Hc Hs]. rewrite (IH _ Hs).
  unfold lower_fixed in Hc. apply andb_true_iff in Hc as [Hn He].
  apply negb_true_iff in Hn. apply str_eqb_eq in He.
  unfold lower_char. now rewrite Hn, He.
Qed.

Lemma ascii_tolower_plain c :
  is_ascii c = true ->
  is_ascii (ascii_tolower c) && negb (ascii_isupper (ascii_tolower c)) = true.
Proof.
  unfold is_ascii, ascii_tolower, ascii_isupper, in_range. intros H.
  apply N.ltb_lt in H.
  destruct ((65 <=? c) && (c <=? 90)) eqn:E.
  - apply andb_true_iff in E as [E1 E2].
    apply N.leb_le in E1. apply N.leb_le in E2.
    apply andb_true_iff. split; [apply N.ltb_lt; lia|].
    apply negb_true_iff, andb_false_iff. right. apply N.leb_gt. lia.
  - rewrite E. simpl. rewrite andb_true_r. now apply N.ltb_lt.
Qed.

Lemma lower_from_ascii U s : forall before,
  forallb is_ascii s = true ->
  forallb (fun c => is_ascii c && negb (ascii_isupper c))
          (lower_from U before s) = true.
Proof.
  induction s as [|c s IH]; simpl; intros before H; [reflexivity|].
  apply andb_true_iff in H as [Hc Hs].
  rewrite forallb_app, (IH _ Hs), andb_true_r.
  unfold lower_char, tolower_full. rewrite Hc.
  assert (Hn : (c =? CAPITAL_SIGMA) = false).
  { apply N.eqb_neq. unfold is_ascii in Hc. apply N.ltb_lt in Hc.
    unfold CAPITAL_SIGMA. lia. }
  rewrite Hn. cbn [forallb]. now rewrite ascii_tolower_plain.
Qed.

(** ** The generator *)

Section AnchorFacts.
Variable U : UnicodeData.

Lemma slug_kept s : forallb (is_kept_char U) (slug U s) = true.
Proof.
  unfold slug. apply strip_hyphens_forallb.
  eapply forallb_impl;
    [|apply collapse_runs_forallb, (delete_class_clean (is_special U))].
  intros c H. unfold is_kept_char. apply orb_true_iff in H as [->|H]; [reflexivity|].
  apply andb_true_iff in H as [H1 H2].
  apply negb_true_iff in H1, H2. unfold is_special in H1.
  apply negb_false_iff in H1. unfold is_sep in H2.
  apply orb_false_iff in H2 as [Hh Hs]. rewrite Hh, Hs in *.
  rewrite !orb_false_r in H1. now rewrite H1.
Qed.

Lemma slug_hyphens s : hyphens_ok (slug U s) = true.
Proof. unfold slug. apply strip_hyphens_ok, collapse_runs_hyphens. Qed.

Lemma slug_ascii s :
  forallb is_ascii s = true ->
  forallb is_ascii_slug_char (slug U s) = true.
Proof.
  intros Ha. unfold slug. apply strip_hyphens_forallb.
  eapply forallb_impl; [|apply collapse_runs_forallb, forallb_and;
    [apply delete_class_forallb, lower_from_ascii, delete_class_forallb,
       strip_marker_forallb, Ha
    |apply (delete_class_clean (is_special U))]].
  intros c H. cbv beta in H. apply orb_true_iff in H as [H|H].
  - unfold is_ascii_slug_char, is_slug_char. rewrite H.
    now rewrite orb_true_r.
  - apply andb_true_iff in H as [H Hsep].
    apply andb_true_iff in H as [H Hsp].
    apply andb_true_iff in H as [Hasc Hup].
    apply negb_true_iff in Hsep, Hsp, Hup.
    now apply (ascii_survivor U).
Qed.

Lemma hyphen_settled c : is_hyphen c = true -> settled U c = true.
Proof. intros H. apply is_hyphen_eq in H. subst c. reflexivity. Qed.

Hypothesis Hclosed : lower_closed U.
Hypothesis Hemoji : lower_avoids_emoji U.

Lemma slug_settled s : forallb (settled U) (slug U s) = true.
Proof.
  unfold slug. apply strip_hyphens_forallb.
  eapply forallb_impl; [|apply collapse_runs_forallb, delete_class_forallb].
  - intros c H. apply orb_true_iff in H as [H|H];
      [now apply hyphen_settled|].
    apply andb_true_iff in H as [H _]. exact H.
  - apply forallb_forall. intros d Hd.
    apply lower_from_images in Hd as (c & Hc & Him).
    pose proof (delete_class_clean is_emoji (strip_marker s)) as Hne.
    rewrite forallb_forall in Hne. specialize (Hne c Hc).
    apply negb_true_iff in Hne.
    unfold settled. rewrite (Hclosed c d Him), (Hemoji c d Hne Him).
    reflexivity.
Qed.

End AnchorFacts.

Lemma collapse_runs_id U s : forall b,
  forallb (is_kept_char U) s = true ->
  no_double_hyphen s = true ->
  (b = true -> no_leading_hyphen s = true) ->
  collapse_runs b s = s.
Proof.
  induction s as [|c s IH]; intros b Hk Hd Hl; simpl; [reflexivity|].
  simpl in Hk. apply andb_true_iff in Hk as [Hc Hk].
  destruct (is_sep c) eqn:E.
  - pose proof (kept_sep_hyphen U c Hc E) as ->.
    destruct b; [specialize (Hl eq_refl); discriminate Hl|].
    f_equal. apply IH; [exact Hk|eapply no_double_hyphen_tail, Hd|].
    intros _. destruct s as [|d r]; [reflexivity|].
    rewrite no_double_hyphen_cons in Hd.
    apply andb_true_iff in Hd as [Hd _]. simpl in *. exact Hd.
  - f_equal. apply IH; [exact Hk|eapply no_double_hyphen_tail, Hd|discriminate].
Qed.

Lemma strip_hyphens_id s :
  no_leading_hyphen s = true -> no_trailing_hyphen s = true ->
  strip_hyphens s = s.
Proof.
  unfold strip_hyphens, no_trailing_hyphen. intros Hl Ht.
  rewrite (drop_while_id is_hyphen s).
  - rewrite (drop_while_id is_hyphen (rev s)); [apply rev_involutive|].
    destruct (rev s); [exact I|]. now apply negb_true_iff in Ht.
  - destruct s; [exact I|]. now apply negb_true_iff in Hl.
Qed.

(** A second run of the generator finds nothing left to do on a slug. *)
Lemma slug_fixed_point U t :
  forallb (is_kept_char U) t = true ->
  forallb (settled U) t = true ->
  hyphens_ok t = true ->
  slug U (HASH :: t) = t.
Proof.
  intros Hk Hs Hh. unfold hyphens_ok in Hh.
  apply andb_true_iff in Hh as [Hh Hd]. apply andb_true_iff in Hh as [Hl Ht].
  assert (Hm : strip_marker (HASH :: t) = t).
  { unfold strip_marker. change (is_hash HASH) with true. cbv iota.
    change (drop_while is_hash (HASH :: t)) with (drop_while is_hash t).
    destruct t as [|c t]; [reflexivity|].
    simpl in Hk. apply andb_true_iff in Hk as [Hc _].
    rewrite (drop_while_id is_hash); [|now apply (kept_not_hash U)].
    apply drop_while_id. now apply (kept_not_space U). }
  unfold slug. rewrite Hm. unfold remove_emojis.
  rewrite (delete_class_id is_emoji).
  2:{ eapply forallb_impl; [|exact Hs]. intros c H. unfold settled in H.
      now apply andb_true_iff in H as [_ H]. }
  unfold lower. rewrite lower_from_fixed.
  2:{ eapply forallb_impl; [|exact Hs]. intros c H. unfold settled in H.
      now apply andb_true_iff in H as [H _]. }
  rewrite delete_class_id.
  2:{ eapply forallb_impl; [|exact Hk]. intros c H.
      now rewrite (kept_not_special U c H). }
  rewrite (collapse_runs_id U); [|exact Hk|exact Hd|discriminate].
  now apply strip_hyphens_id.
Qed.

(** ** The database without letters outside ASCII satisfies both facts *)

Lemma ascii_only_closed : lower_closed ascii_only.
Proof.
  intros c d. unfold lower_images, tolower_full.
  destruct (c =? CAPITAL_SIGMA) eqn:Es.
  - intros [<-|[<-|[]]]; reflexivity.
  - destruct (is_ascii c) eqn:Ea; intros [<-|[]].
    + pose proof (ascii_tolower_plain c Ea) as H.
      apply andb_true_iff in H as [H1 H2]. apply negb_true_iff in H2.
      unfold lower_fixed, tolower_full. rewrite H1.
      unfold ascii_tolower at 2. rewrite H2. simpl.
      rewrite N.eqb_refl, andb_true_r. apply negb_true_iff, N.eqb_neq.
      unfold is_ascii in H1. apply N.ltb_lt in H1. unfold CAPITAL_SIGMA. lia.
    + unfold lower_fixed, tolower_full. rewrite Es, Ea. simpl.
      now rewrite N.eqb_refl.
Qed.

Lemma ascii_not_emoji c : is_ascii c = true -> is_emoji c = false.
Proof.
  unfold is_ascii, is_emoji, in_range. intros H. apply N.ltb_lt in H.
  repeat (apply orb_false_iff; split);
    apply andb_false_iff; left; apply N.leb_gt; lia.
Qed.

Lemma ascii_only_avoids_emoji : lower_avoids_emoji ascii_only.
Proof.
  intros c d Hc. unfold lower_images, tolower_full.
  destruct (c =? CAPITAL_SIGMA) eqn:Es.
  - intros [<-|[<-|[]]]; reflexivity.
  - destruct (is_ascii c) eqn:Ea; intros [<-|[]]; [|exact Hc].
    apply ascii_not_emoji.
    pose proof (ascii_tolower_plain c Ea) as H.
    now apply andb_true_iff in H as [H _].
Qed.

(** ** Claims about the slug generator *)

Lemma snake_case_anchor U :
  create_github_anchor U (of_ascii "## snake_case") = of_ascii "#snake_case".
Proof. reflexivity. Qed.

(** A letter outside ASCII is kept as well, in every database that has it
    as a lower-case letter: the anchor of ["## café"] is ["#café"]. *)
Lemma accented_letter_kept U :
  ud_isalnum U 0xE9 = true -> ud_tolower U 0xE9 = [0xE9] ->
  create_github_anchor U (of_ascii "## caf" ++ [0xE9])
  = of_ascii "#caf" ++ [0xE9].
Proof.
  intros Ha Hl. unfold create_github_anchor. f_equal. unfold slug.
  change (remove_emojis (strip_marker (of_ascii "## caf" ++ [0xE9])))
    with (of_ascii "caf" ++ [0xE9]).
  assert (Hlow : lower U (of_ascii "caf" ++ [0xE9]) = of_ascii "caf" ++ [0xE9]).
  { apply lower_from_fixed.
    change (of_ascii "caf" ++ [0xE9]) with ([99; 97; 102; 0xE9] : str).
    cbn [forallb]. rewrite !andb_true_r.
    assert (He : lower_fixed U 0xE9 = true).
    { unfold lower_fixed, tolower_full.
      change (is_ascii 0xE9) with false. cbv iota. rewrite Hl.
      reflexivity. }
    rewrite He. reflexivity. }
  rewrite Hlow.
  assert (Hdel : delete_class (is_special U) (of_ascii "caf" ++ [0xE9])
                 = of_ascii "caf" ++ [0xE9]).
  { apply delete_class_id.
    change (of_ascii "caf" ++ [0xE9]) with ([99; 97; 102; 0xE9] : str).
    cbn [forallb]. rewrite !andb_true_r.
    assert (He : is_special U 0xE9 = false).
    { unfold is_special, is_word, isalnum.
      change (is_ascii 0xE9) with false. cbv iota. rewrite Ha.
      reflexivity. }
    rewrite He. reflexivity. }
  rewrite Hdel. reflexivity.
Qed.

(** C1, as stated, fails: the underscore is a character of [\w], so the
    generator keeps it, and the anchor of ["## snake_case"] is
    ["#snake_case"], which is outside [[a-z0-9-]]. *)
Lemma anchor_slug_invariant_fails :
  ~ (forall U s, AnchorSlug (create_github_anchor U s) = true).
Proof.
  intros H. specialize (H ascii_only (of_ascii "## snake_case")).
  rewrite snake_case_anchor in H. discriminate H.
Qed.

Lemma emoji_free_ascii s :
  forallb (fun c => is_ascii c || is_emoji c) s = true ->
  forallb is_ascii (delete_class is_emoji s) = true.
Proof.
  induction s as [|c s IH]; [reflexivity|]. intros H.
  cbn [forallb] in H. apply andb_true_iff in H as [Hc Hs].
  cbn [delete_class]. destruct (is_emoji c) eqn:E; [now apply IH|].
  rewrite orb_false_r in Hc. cbn [forallb]. now rewrite Hc, IH.
Qed.

Lemma slug_ascii_title U s :
  forallb is_ascii (remove_emojis (strip_marker s)) = true ->
  forallb is_ascii_slug_char (slug U s) = true.
Proof.
  intros Ha. unfold slug. apply strip_hyphens_forallb.
  eapply forallb_impl; [|apply collapse_runs_forallb, forallb_and;
    [apply delete_class_forallb, lower_from_ascii, Ha
    |apply (delete_class_clean (is_special U))]].
  intros c H. cbv beta in H. apply orb_true_iff in H as [H|H].
  - unfold is_ascii_slug_char, is_slug_char. rewrite H.
    now rewrite orb_true_r.
  - apply andb_true_iff in H as [H Hsep].
    apply andb_true_iff in H as [H Hsp].
    apply andb_true_iff in H as [Hasc Hup].
    apply negb_true_iff in Hsep, Hsp, Hup.
    now apply (ascii_survivor U).
Qed.

Lemma slug_lower_fixed U s :
  lower_closed U -> forallb (lower_fixed U) (slug U s) = true.
Proof.
  intros Hclosed. unfold slug. apply strip_hyphens_forallb.
  eapply forallb_impl; [|apply collapse_runs_forallb, delete_class_forallb].
  - intros c H. apply orb_true_iff in H as [H|H].
    + apply (hyphen_settled U) in H. unfold settled in H.
      now apply andb_true_iff in H as [H _].
    + apply andb_true_iff in H as [H _]. exact H.
  - apply forallb_forall. intros d Hd.
    apply lower_from_images in Hd as (c & _ & Him).
    exact (Hclosed c d Him).
Qed.

(** An ASCII character that the generator keeps and that lower-casing
    leaves alone is a lower-case letter, a digit, a hyphen or the
    underscore. *)
Lemma ascii_kept_fixed U c :
  is_kept_char U c = true -> lower_fixed U c = true ->
  negb (is_ascii c) || is_ascii_slug_char c = true.
Proof.
  intros Hk Hf. destruct (is_ascii c) eqn:Ha; [|reflexivity]. cbn [negb orb].
  unfold is_kept_char in Hk. apply orb_true_iff in Hk as [Hk|Hk].
  { unfold is_ascii_slug_char, is_slug_char. rewrite Hk.
    now rewrite orb_true_r. }
  apply andb_true_iff in Hk as [Hw Hs]. apply negb_true_iff in Hs.
  destruct (is_hyphen c) eqn:Hh.
  { unfold is_ascii_slug_char, is_slug_char. rewrite Hh.
    now rewrite orb_true_r. }
  apply (ascii_survivor U); try assumption.
  - unfold lower_fixed, tolower_full in Hf. rewrite Ha in Hf.
    apply andb_true_iff in Hf as [_ Hf]. apply str_eqb_eq in Hf.
    injection Hf as Hf. unfold ascii_tolower in Hf.
    destruct (ascii_isupper c); [lia|reflexivity].
  - unfold is_special. now rewrite Hw.
  - unfold is_sep. now rewrite Hh, Hs.
Qed.

(** C1, amended: for every input the anchor starts with [#]; each later
    character is a hyphen or a word character of [\w] (alphanumeric in
    the Unicode sense, or the underscore) that is not whitespace; there is
    no leading, trailing or doubled hyphen.  When the input holds only
    ASCII characters and characters of the pictographic ranges, the later
    characters lie in [[a-z0-9_-]].  Over every database whose lower-case
    mapping is closed, each later character of every anchor is left
    unchanged by lower-casing, and each later ASCII character lies in
    [[a-z0-9_-]]. *)
Theorem anchor_is_word_slug U s :
  WordSlug U (create_github_anchor U s) = true /\
  (forallb (fun c => is_ascii c || is_emoji c) s = true ->
   forallb is_ascii_slug_char (slug U s) = true) /\
  (lower_closed U -> LowerWordSlug U (create_github_anchor U s) = true).
Proof.
  split; [|split].
  - unfold WordSlug, create_github_anchor.
    now rewrite slug_kept, slug_hyphens.
  - intros H. apply slug_ascii_title. unfold remove_emojis.
    now apply emoji_free_ascii, strip_marker_forallb.
  - intros Hc. unfold LowerWordSlug, create_github_anchor.
    rewrite slug_hyphens, andb_true_r.
    change (is_hash HASH) with true. cbn [andb].
    eapply forallb_impl;
      [|apply forallb_and; [apply (slug_kept U s)
                           |apply (slug_lower_fixed U s Hc)]].
    intros c H. cbv beta in H. apply andb_true_iff in H as [Hk Hf].
    unfold is_lower_kept_char.
    now rewrite Hk, Hf, (ascii_kept_fixed U c Hk Hf).
Qed.

Lemma anchor_is_word_slug_witness :
  forallb is_ascii_slug_char
    (slug ascii_only ([35; 35; 32; 0x1F680; 32] ++ of_ascii "Quick Start_2"))
  = true /\
  LowerWordSlug ascii_only
    (create_github_anchor ascii_only
       ([35; 35; 32; 0x1F680; 32] ++ of_ascii "Quick Start_2")) = true.
Proof.
  pose proof (anchor_is_word_slug ascii_only
                ([35; 35; 32; 0x1F680; 32] ++ of_ascii "Quick Start_2"))
    as (_ & Hascii & Hlower).
  split; [apply Hascii; reflexivity|apply Hlower, ascii_only_closed].
Defined.

(** C2: the generator is idempotent.  Running it on its own output gives
    that output again, for every input, over every database whose
    lower-case mappings are closed and stay outside the pictographic
    ranges. *)
Theorem create_github_anchor_idempotent U s :
  lower_closed U -> lower_avoids_emoji U ->
  create_github_anchor U (create_github_anchor U s)
  = create_github_anchor U s.
Proof.
  intros Hc He. unfold create_github_anchor at 1 3. f_equal.
  unfold create_github_anchor. apply slug_fixed_point.
  - apply slug_kept.
  - now apply slug_settled.
  - apply slug_hyphens.
Qed.

Lemma create_github_anchor_idempotent_witness :
  lower_closed ascii_only /\ lower_avoids_emoji ascii_only /\
  create_github_anchor ascii_only
    (create_github_anchor ascii_only (of_ascii "## Monitoring & Alerting"))
  = create_github_anchor ascii_only (of_ascii "## Monitoring & Alerting").
Proof.
  split; [exact ascii_only_closed|]. split; [exact ascii_only_avoids_emoji|].
  apply (create_github_anchor_idempotent ascii_only
           (of_ascii "## Monitoring & Alerting")
           ascii_only_closed ascii_only_avoids_emoji).
Defined.

(** Over ASCII input the same holds for every database. *)
Lemma ascii_slug_char_plain c :
  is_ascii_slug_char c = true ->
  is_ascii c = true /\ ascii_isupper c = false.
Proof.
  unfold is_ascii_slug_char, is_slug_char, is_hyphen, is_ascii,
    ascii_isupper, in_range, HYPHEN, UNDERSCORE.
  intros H. rewrite N.ltb_lt, andb_false_iff, !N.leb_gt.
  repeat (apply orb_true_iff in H as [H|H]);
    try (apply andb_true_iff in H as [H1 H2];
         apply N.leb_le in H1; apply N.leb_le in H2);
    try apply N.eqb_eq in H; lia.
Qed.

Lemma ascii_slug_char_settled U c :
  is_ascii_slug_char c = true -> settled U c = true.
Proof.
  intros H. destruct (ascii_slug_char_plain c H) as [Ha Hu].
  unfold settled, lower_fixed, tolower_full, ascii_tolower.
  rewrite Ha, Hu, (ascii_not_emoji c Ha). simpl.
  rewrite N.eqb_refl, !andb_true_r. apply negb_true_iff, N.eqb_neq.
  unfold is_ascii in Ha. apply N.ltb_lt in Ha. unfold CAPITAL_SIGMA. lia.
Qed.

Lemma create_github_anchor_idempotent_ascii U s :
  forallb is_ascii s = true ->
  create_github_anchor U (create_github_anchor U s)
  = create_github_anchor U s.
Proof.
  intros Ha. unfold create_github_anchor at 1 3. f_equal.
  unfold create_github_anchor. apply slug_fixed_point.
  - apply slug_kept.
  - eapply forallb_impl; [apply ascii_slug_char_settled|now apply slug_ascii].
  - apply slug_hyphens.
Qed.

(** C3: the generator is total over strings.  Every call of the untyped
    function on a string returns a string, the one the typed function
    computes, and raises nothing; so does [remove_emojis]. *)
Theorem create_github_anchor_total U s :
  Dyn.create_github_anchor U (Dyn.VStr s)
  = inr (Dyn.VStr (create_github_anchor U s)) /\
  Dyn.remove_emojis (Dyn.VStr s) = inr (Dyn.VStr (remove_emojis s)).
Proof. split; reflexivity. Qed.

Lemma create_github_anchor_none U :
  Dyn.create_github_anchor U Dyn.VNone = inl Dyn.TypeError.
Proof. reflexivity. Qed.

(** C5: ["## Monitoring & Alerting"] gives ["#monitoring-alerting"] and
    not ["#monitoring--alerting"]: deleting the ampersand leaves two
    spaces side by side, and the run becomes one hyphen. *)
Theorem monitoring_alerting_anchor U :
  create_github_anchor U (of_ascii "## Monitoring & Alerting")
  = of_ascii "#monitoring-alerting" /\
  create_github_anchor U (of_ascii "## Monitoring & Alerting")
  <> of_ascii "#monitoring--alerting" /\
  delete_class (is_special U) (of_ascii "monitoring & alerting")
  = of_ascii "monitoring  alerting" /\
  collapse_runs false (of_ascii "monitoring  alerting")
  = of_ascii "monitoring-alerting".
Proof. repeat split; try reflexivity. discriminate. Qed.

Lemma drop_hashes n s :
  drop_while is_hash (repeat HASH n ++ s) = drop_while is_hash s.
Proof. induction n as [|n IH]; simpl; [reflexivity|exact IH]. Qed.

(** C6: a header line whose title holds pictographic characters only has
    the bare anchor [#], and so has every input whose title is empty after
    the stripping steps. *)
Theorem emoji_only_title_anchor U n ws e :
  (1 <= n)%nat ->
  forallb is_space ws = true ->
  forallb is_emoji e = true ->
  create_github_anchor U (repeat HASH n ++ ws ++ e) = [HASH] /\
  (forall s, slug U s = [] -> create_github_anchor U s = [HASH]).
Proof.
  intros Hn Hws He. split.
  2:{ intros s Hs. unfold create_github_anchor. now rewrite Hs. }
  unfold create_github_anchor. f_equal. unfold slug.
  assert (Hm : forallb is_emoji (strip_marker (repeat HASH n ++ ws ++ e)) = true).
  { destruct n as [|n]; [lia|]. unfold strip_marker.
    change (repeat HASH (S n) ++ ws ++ e)
      with (HASH :: (repeat HASH n ++ ws ++ e)).
    change (is_hash HASH) with true. cbv iota.
    change (HASH :: (repeat HASH n ++ ws ++ e))
      with (repeat HASH (S n) ++ ws ++ e).
    rewrite drop_hashes, (drop_while_id is_hash).
    - rewrite drop_while_app by exact Hws. now apply forallb_drop_while.
    - destruct ws as [|c ws]; simpl.
      + destruct e as [|c e]; [exact I|]. simpl in He.
        apply andb_true_iff in He as [He _]. now apply emoji_not_hash.
      + simpl in Hws. apply andb_true_iff in Hws as [Hc _].
        now apply space_not_hash. }
  unfold remove_emojis. now rewrite (delete_class_all is_emoji _ Hm).
Qed.

Lemma emoji_only_title_anchor_witness :
  create_github_anchor ascii_only [35; 35; 32; 0x1F389; 0x1F389] = [HASH].
Proof.
  refine (proj1 (emoji_only_title_anchor ascii_only 2 [32]
                   [0x1F389; 0x1F389] _ _ _));
    [lia|reflexivity|reflexivity].
Defined.

(** ** Substring search *)

Lemma starts_with_app p t : starts_with p (p ++ t) = true.
Proof.
  induction p as [|a p IH]; simpl; [reflexivity|].
  now rewrite N.eqb_refl, IH.
Qed.

Lemma starts_with_split p s :
  starts_with p s = true -> exists t, s = p ++ t.
Proof.
  revert s. induction p as [|a p IH]; intros s H; simpl in *.
  - now exists s.
  - destruct s as [|b s]; [discriminate|].
    apply andb_true_iff in H as [Hab H]. apply N.eqb_eq in Hab. subst b.
    destruct (IH s H) as (t & ->). now exists t.
Qed.

Lemma contains_here sub s : starts_with sub s = true -> contains sub s = true.
Proof. intros H. destruct s; simpl in *; now rewrite H. Qed.

Lemma contains_cons sub c s :
  contains sub s = true -> contains sub (c :: s) = true.
Proof. intros H. simpl. rewrite H. apply orb_true_r. Qed.

Lemma contains_app_r sub z s :
  contains sub s = true -> contains sub (z ++ s) = true.
Proof. induction z; simpl; [auto|]. intros H. rewrite IHz; auto using orb_true_r. Qed.

Lemma contains_nil s : contains [] s = true.
Proof. destruct s; reflexivity. Qed.

Lemma skipn_scan old new s : forall k,
  replace_scan k old new s = replace_scan O old new (skipn k s).
Proof.
  induction s as [|c s IH]; intros [|k]; try reflexivity.
  simpl. apply IH.
Qed.

Lemma skipn_length_app (u t : str) : skipn (length u) (u ++ t) = t.
Proof. induction u; simpl; auto. Qed.

Lemma lacks_contains h w' z s :
  lacks h z = true ->
  contains (h :: w') (z ++ s) = contains (h :: w') s.
Proof.
  induction z as [|c z IH]; [reflexivity|]. intros H.
  simpl in H. apply andb_true_iff in H as [Hc Hz].
  apply negb_true_iff in Hc. rewrite N.eqb_sym in Hc.
  change (contains (h :: w') ((c :: z) ++ s))
    with ((h =? c) && starts_with w' (z ++ s) || contains (h :: w') (z ++ s)).
  now rewrite Hc, IH.
Qed.

(** ** Replacement of a non-empty stale link *)

Section Scan.
Variables (h : codepoint) (old' : str).
Let old := h :: old'.

Lemma replace_match new t :
  replace old new (old ++ t) = new ++ replace old new t.
Proof.
  unfold replace, old. cbn [app replace_scan length Nat.pred].
  fold old. change (h :: old' ++ t) with (old ++ t).
  rewrite starts_with_app. f_equal.
  rewrite skipn_scan. f_equal. apply skipn_length_app.
Qed.

Lemma replace_step new c rest :
  starts_with old (c :: rest) = false ->
  replace old new (c :: rest) = c :: replace old new rest.
Proof. intros H. unfold replace, old in *. cbn [replace_scan]. now rewrite H. Qed.

(** Induction along the scan: the text is empty, starts with an
    occurrence, or starts with a character that is copied. *)
Lemma scan_ind (P : str -> Prop) :
  P [] ->
  (forall t, P t -> P (old ++ t)) ->
  (forall c rest, starts_with old (c :: rest) = false ->
                  P rest -> P (c :: rest)) ->
  forall s, P s.
Proof.
  intros Hnil Hmatch Hstep s.
  remember (length s) as n eqn:Hn.
  revert s Hn. induction n as [n IH] using lt_wf_ind. intros s Hn.
  destruct s as [|c rest]; [exact Hnil|].
  destruct (starts_with old (c :: rest)) eqn:E.
  - apply starts_with_split in E as (t & Et). rewrite Et.
    apply Hmatch. apply (IH (length t)); [|reflexivity].
    subst n. rewrite Et, length_app. unfold old. simpl. lia.
  - apply Hstep; [exact E|]. apply (IH (length rest)); [|reflexivity].
    subst n. simpl. lia.
Qed.

Lemma replace_absent new s :
  contains old s = false -> replace old new s = s.
Proof.
  induction s as [|t IH|c rest E IH] using scan_ind; intros H.
  - reflexivity.
  - rewrite contains_here in H; [discriminate|apply starts_with_app].
  - rewrite replace_step by exact E. f_equal. apply IH.
    simpl in H. now apply orb_false_iff in H as [_ H].
Qed.

Lemma replace_same s : replace old old s = s.
Proof.
  induction s as [|t IH|c rest E IH] using scan_ind.
  - reflexivity.
  - now rewrite replace_match, IH.
  - now rewrite replace_step, IH.
Qed.

Lemma replace_brings_new new s :
  contains old s = true -> contains new (replace old new s) = true.
Proof.
  induction s as [|t IH|c rest E IH] using scan_ind; intros H.
  - discriminate.
  - rewrite replace_match. apply contains_here, starts_with_app.
  - rewrite replace_step by exact E. apply contains_cons, IH.
    change (starts_with old (c :: rest) || contains old rest = true) in H.
    now rewrite E in H.
Qed.

(** From here on the corrected link starts with the same character as
    the stale one. *)
Variable new' : str.
Let new := h :: new'.

Lemma replace_starts_with s : forall w,
  lacks h w = true ->
  starts_with w (replace old new s) = starts_with w s.
Proof.
  induction s as [|t IH|c rest E IH] using scan_ind; intros w Hw.
  - reflexivity.
  - rewrite replace_match. destruct w as [|a w]; [reflexivity|].
    simpl in Hw. apply andb_true_iff in Hw as [Ha _].
    apply negb_true_iff in Ha. unfold new, old. simpl. now rewrite Ha.
  - rewrite replace_step by exact E. destruct w as [|a w]; [reflexivity|].
    simpl in Hw. apply andb_true_iff in Hw as [_ Hw].
    simpl. now rewrite IH.
Qed.

Variable w' : str.
Let w := h :: w'.
Hypothesis w'_lacks : lacks h w' = true.

(** No occurrence of [w] appears that was not in the text already, at a
    place where the stale link did not match. *)
Lemma replace_no_new_occurrence s :
  lacks h new' = true ->
  (forall t, starts_with w (new ++ t) = false) ->
  (forall u t, s = u ++ t ->
               starts_with w t = true -> starts_with old t = true) ->
  contains w (replace old new s) = false.
Proof.
  intros Hnew Hdiff. revert s.
  apply (scan_ind (fun s =>
    (forall u t, s = u ++ t ->
                 starts_with w t = true -> starts_with old t = true) ->
    contains w (replace old new s) = false)).
  - reflexivity.
  - intros t IH Hocc. rewrite replace_match.
    change (starts_with w (new ++ replace old new t)
            || contains w (new' ++ replace old new t) = false).
    rewrite Hdiff. unfold w. rewrite lacks_contains by exact Hnew.
    apply IH. intros u t' ->. apply (Hocc (old ++ u)).
    now rewrite <- app_assoc.
  - intros c rest E IH Hocc. rewrite replace_step by exact E.
    change ((h =? c) && starts_with w' (replace old new rest)
            || contains w (replace old new rest) = false).
    rewrite IH.
    2:{ intros u t ->. now apply (Hocc (c :: u)). }
    rewrite replace_starts_with, orb_false_r by exact w'_lacks.
    destruct ((h =? c) && starts_with w' rest) eqn:Ew; [|reflexivity].
    rewrite (Hocc [] (c :: rest) eq_refl Ew) in E. discriminate.
Qed.

(** An occurrence of [w] that the stale link cannot overlap survives. *)
Lemma replace_keeps_occurrence s :
  lacks h old' = true ->
  (forall t, starts_with old (w ++ t) = false) ->
  contains w s = true -> contains w (replace old new s) = true.
Proof.
  intros Hold Hdiff. revert s.
  apply (scan_ind (fun s =>
    contains w s = true -> contains w (replace old new s) = true)).
  - discriminate.
  - intros t IH H. rewrite replace_match. apply contains_app_r, IH.
    change (starts_with w (old ++ t) || contains w (old' ++ t) = true) in H.
    unfold w in H at 2. rewrite lacks_contains in H by exact Hold.
    destruct (starts_with w (old ++ t)) eqn:Ew; [|exact H].
    apply starts_with_split in Ew as (v & Ev).
    pose proof (starts_with_app old t) as Hm.
    rewrite Ev, Hdiff in Hm. discriminate.
  - intros c rest E IH H. rewrite replace_step by exact E.
    change ((h =? c) && starts_with w' rest || contains w rest = true) in H.
    change ((h =? c) && starts_with w' (replace old new rest)
            || contains w (replace old new rest) = true).
    rewrite replace_starts_with by exact w'_lacks.
    destruct ((h =? c) && starts_with w' rest); [reflexivity|].
    rewrite IH; [apply orb_true_r|exact H].
Qed.

End Scan.

Lemma replace_empty_same s : replace [] [] s = s.
Proof.
  unfold replace. simpl. induction s as [|c s IH]; simpl; [reflexivity|].
  now rewrite IH.
Qed.

Lemma replace_identity x s : replace x x s = s.
Proof. destruct x; [apply replace_empty_same|apply replace_same]. Qed.

Lemma replace_not_found old new s :
  contains old s = false -> replace old new s = s.
Proof.
  destruct old; [now rewrite contains_nil|apply replace_absent].
Qed.

Lemma replace_found old new s :
  contains old s = true -> contains new (replace old new s) = true.
Proof.
  destruct old as [|h old']; [|apply replace_brings_new].
  intros _. unfold replace. apply contains_here, starts_with_app.
Qed.

(** ** Rule lists *)

Lemma apply_rule_replace c r : apply_rule c r = replace (fst r) (snd r) c.
Proof.
  unfold apply_rule. destruct (contains (fst r) c) eqn:E; [reflexivity|].
  symmetry. now apply replace_not_found.
Qed.

Lemma apply_rule_same c x : apply_rule c (x, x) = c.
Proof. rewrite apply_rule_replace. apply replace_identity. Qed.

Lemma apply_rule_not_found c r :
  contains (fst r) c = false -> apply_rule c r = c.
Proof. unfold apply_rule. now intros ->. Qed.

Lemma fold_rules_cons r fixes content :
  fold_rules (r :: fixes) content = fold_rules fixes (apply_rule content r).
Proof. reflexivity. Qed.

Lemma rule_found_none fixes content :
  (forall r, In r fixes -> contains (fst r) content = false) ->
  rule_found fixes content = false.
Proof.
  induction fixes as [|r fixes IH]; intros H; simpl; [reflexivity|].
  rewrite (H r) by now left. rewrite apply_rule_not_found by (apply H; now left).
  apply IH. intros r' Hr'. apply H. now right.
Qed.

Lemma fold_rules_not_found fixes : forall content,
  rule_found fixes content = false -> fold_rules fixes content = content.
Proof.
  induction fixes as [|r fixes IH]; intros content H; [reflexivity|].
  simpl in H. apply orb_false_iff in H as [Hr H].
  rewrite fold_rules_cons. rewrite apply_rule_not_found in * by exact Hr.
  now apply IH.
Qed.

Lemma fold_rules_identity fixes content :
  (forall r, In r fixes -> fst r = snd r) ->
  fold_rules fixes content = content.
Proof.
  induction fixes as [|[o n] fixes IH]; intros H; [reflexivity|].
  rewrite fold_rules_cons. specialize (H (o, n)) as Hon. simpl in Hon.
  rewrite <- Hon by now left. rewrite apply_rule_same.
  apply IH. intros r Hr. apply H. now right.
Qed.

(** ** Runs of the repair script *)

Lemma world_eta w : World (files w) (writes w) (stdout w) = w.
Proof. now destruct w. Qed.

(** The loop leaves the files alone, ends with the fold of the rules, and
    has counted a rule exactly when some rule found its link. *)
Lemma apply_fixes_run fixes : forall content n w,
  exists k out,
    apply_fixes fixes content n w
    = (inr (fold_rules fixes content, (n + k)%nat),
       World (files w) (writes w) (stdout w ++ out)) /\
    (0 <? k)%nat = rule_found fixes content.
Proof.
  induction fixes as [|[o nw] fixes IH]; intros content n w.
  - exists 0%nat, []. simpl. unfold ret.
    now rewrite Nat.add_0_r, app_nil_r, world_eta.
  - cbn [apply_fixes rule_found fst snd]. rewrite fold_rules_cons.
    destruct (contains o content) eqn:E.
    + unfold apply_rule. cbn [fst snd]. rewrite E.
      unfold mbind at 1. unfold print at 1.
      destruct (IH (replace o nw content) (S n)
                  (World (files w) (writes w) (stdout w ++ [MsgFixed o nw])))
        as (k & out & Hrun & Hk).
      rewrite Hrun. exists (S k), (MsgFixed o nw :: out). split; [|reflexivity].
      cbn [files writes stdout]. rewrite <- app_assoc.
      now replace (S n + k)%nat with (n + S k)%nat by lia.
    + rewrite apply_rule_not_found by exact E. apply IH.
Qed.

(** ** Text mode *)

Lemma universal_newlines_chars (q : codepoint -> bool) s :
  q LINE_FEED = true ->
  (forall c, In c s -> c <> CARRIAGE_RETURN -> q c = true) ->
  forallb q (universal_newlines s) = true.
Proof.
  intros Hlf. remember (length s) as n eqn:Hn. revert s Hn.
  induction n as [n IH] using lt_wf_ind. intros s Hn Hq.
  destruct s as [|c rest]; [reflexivity|].
  cbn [universal_newlines]. destruct (c =? CARRIAGE_RETURN) eqn:Ec.
  - cbn [forallb]. rewrite Hlf. cbn [andb].
    destruct rest as [|d rest']; [reflexivity|].
    destruct (d =? LINE_FEED).
    + apply (IH (length rest')); [subst n; simpl; lia|reflexivity|].
      intros x Hx. apply Hq. now do 2 right.
    + apply (IH (length (d :: rest'))); [subst n; simpl; lia|reflexivity|].
      intros x Hx. apply Hq. now right.
  - cbn [forallb]. apply andb_true_iff. split.
    + apply Hq; [now left|]. now apply N.eqb_neq.
    + apply (IH (length rest)); [subst n; simpl; lia|reflexivity|].
      intros x Hx. apply Hq. now right.
Qed.

Lemma universal_newlines_encodable s :
  encodable s = true -> encodable (universal_newlines s) = true.
Proof.
  intros H. apply universal_newlines_chars; [reflexivity|].
  intros c Hc _. unfold encodable in H. rewrite forallb_forall in H.
  now apply H.
Qed.

Lemma universal_newlines_no_cr s :
  forallb not_cr (universal_newlines s) = true.
Proof.
  apply universal_newlines_chars; [reflexivity|].
  intros c _ Hc. unfold not_cr. now apply negb_true_iff, N.eqb_neq.
Qed.

Lemma universal_newlines_id s :
  forallb not_cr s = true -> universal_newlines s = s.
Proof.
  induction s as [|c s IH]; [reflexivity|]. intros H.
  cbn [forallb] in H. apply andb_true_iff in H as [Hc Hs].
  unfold not_cr in Hc. apply negb_true_iff in Hc.
  cbn [universal_newlines]. now rewrite Hc, IH.
Qed.

Lemma universal_newlines_twice s :
  universal_newlines (universal_newlines s) = universal_newlines s.
Proof. apply universal_newlines_id, universal_newlines_no_cr. Qed.

Lemma node_text_some n content :
  node_text n = Some content ->
  exists raw, n = Some (File raw) /\ encodable raw = true /\
              content = universal_newlines raw.
Proof.
  destruct n as [[raw|]|]; try discriminate. simpl.
  destruct (encodable raw) eqn:E; [|discriminate].
  intros [= <-]. now exists raw.
Qed.

Lemma file_text_some w p content :
  file_text w p = Some content ->
  exists raw, files w !! p = Some (File raw) /\ encodable raw = true /\
              content = universal_newlines raw.
Proof. apply node_text_some. Qed.

Lemma file_text_encodable w p content :
  file_text w p = Some content ->
  encodable content = true /\ forallb not_cr content = true.
Proof.
  intros H. apply file_text_some in H as (raw & _ & He & ->).
  split; [now apply universal_newlines_encodable|].
  apply universal_newlines_no_cr.
Qed.

(** A text that holds no carriage return and no surrogate is read back as
    it was written. *)
Lemma file_text_written w p content :
  files w !! p = Some (File content) ->
  encodable content = true -> forallb not_cr content = true ->
  file_text w p = Some content.
Proof.
  intros Hp He Hc. unfold file_text, node_text. rewrite Hp, He.
  now rewrite universal_newlines_id.
Qed.

(** Replacement puts in only characters of the text and of the corrected
    link. *)
Lemma replace_forallb (q : codepoint -> bool) old new s :
  forallb q s = true -> forallb q new = true ->
  forallb q (replace old new s) = true.
Proof.
  intros Hs Hn. destruct old as [|h old'].
  - unfold replace. rewrite forallb_app, Hn. cbn [andb].
    induction s as [|c s IH]; [reflexivity|].
    cbn [forallb] in Hs. apply andb_true_iff in Hs as [Hc Hs].
    cbn [flat_map app forallb]. rewrite forallb_app, Hc, Hn. cbn [andb].
    now apply IH.
  - revert s Hs.
    apply (scan_ind h old' (fun s => forallb q s = true ->
             forallb q (replace (h :: old') new s) = true)).
    + reflexivity.
    + intros t IH H. rewrite replace_match, forallb_app, Hn. cbn [andb].
      apply IH. rewrite forallb_app in H.
      now apply andb_true_iff in H as [_ H].
    + intros c rest E IH H. rewrite replace_step by exact E.
      cbn [forallb] in *. apply andb_true_iff in H as [-> H]. now apply IH.
Qed.

Lemma fold_rules_forallb (q : codepoint -> bool) fixes : forall content,
  forallb q content = true ->
  (forall r, In r fixes -> forallb q (snd r) = true) ->
  forallb q (fold_rules fixes content) = true.
Proof.
  induction fixes as [|r fixes IH]; intros content Hc Hr; [exact Hc|].
  rewrite fold_rules_cons. apply IH.
  - rewrite apply_rule_replace. apply replace_forallb; [exact Hc|].
    apply Hr. now left.
  - intros r' Hr'. apply Hr. now right.
Qed.

(** ** Runs of [fix_markdown_file] *)

Lemma fix_markdown_file_run p fixes w content :
  file_text w p = Some content ->
  exists out,
    fix_markdown_file p fixes w
    = if rule_found fixes content
      then if encodable (fold_rules fixes content)
           then (inr true,
                 World (<[p := File (fold_rules fixes content)]> (files w))
                       (writes w ++ [(p, fold_rules fixes content)])
                       (stdout w ++ out))
           else (inl (UnicodeEncodeError p),
                 World (<[p := File []]> (files w))
                       (writes w ++ [(p, [])]) (stdout w ++ out))
      else (inr false, World (files w) (writes w) (stdout w ++ out)).
Proof.
  intros Ht. destruct (file_text_some w p content Ht) as (raw & Hp & He & ->).
  unfold fix_markdown_file.
  unfold mbind at 1. unfold path_exists.
  rewrite bool_decide_eq_true_2 by (rewrite Hp; eauto). cbn [negb].
  unfold mbind at 1. unfold read_text. rewrite Hp, He.
  unfold mbind at 1. unfold print at 1.
  destruct (apply_fixes_run fixes (universal_newlines raw) 0
              (World (files w) (writes w) (stdout w ++ [MsgFixing p])))
    as (k & out & Hrun & Hk).
  unfold mbind at 1. rewrite Hrun. cbn [files writes stdout Nat.add].
  rewrite Hk. destruct (rule_found fixes (universal_newlines raw)).
  - unfold mbind at 1. unfold write_text. cbn [files writes stdout].
    rewrite Hp.
    destruct (encodable (fold_rules fixes (universal_newlines raw))).
    + exists ([MsgFixing p] ++ out ++ [MsgSaved k p]).
      unfold mbind, print, ret. cbn [files writes stdout].
      now rewrite <- !app_assoc.
    + exists ([MsgFixing p] ++ out). now rewrite <- !app_assoc.
  - exists ([MsgFixing p] ++ out ++ [MsgNoChanges p]).
    unfold mbind, print, ret. cbn [files writes stdout].
    now rewrite <- !app_assoc.
Qed.

Lemma fix_markdown_file_missing p fixes w :
  files w !! p = None ->
  fix_markdown_file p fixes w
  = (inr false, World (files w) (writes w) (stdout w ++ [MsgNotFound p])).
Proof.
  intros Hp. unfold fix_markdown_file, mbind, path_exists.
  rewrite bool_decide_eq_false_2; [reflexivity|].
  rewrite Hp. apply is_Some_None.
Qed.

Lemma fix_markdown_file_undecodable p fixes w raw :
  files w !! p = Some (File raw) -> encodable raw = false ->
  fix_markdown_file p fixes w = (inl (UnicodeDecodeError p), w).
Proof.
  intros Hp He. unfold fix_markdown_file.
  unfold mbind at 1. unfold path_exists.
  rewrite bool_decide_eq_true_2 by (rewrite Hp; eauto). cbn [negb].
  unfold mbind at 1. unfold read_text. now rewrite Hp, He.
Qed.

(** ** Claims about the repair script *)

(** C7: the file is overwritten only when a replacement occurred.  When
    no rule's stale link occurs in the content of an existing file,
    [fix_markdown_file] returns [False], writes nothing and leaves every
    file as it was. *)
Theorem no_match_no_write p fixes w content :
  file_text w p = Some content ->
  (forall r, In r fixes -> contains (fst r) content = false) ->
  exists w',
    fix_markdown_file p fixes w = (inr false, w') /\
    files w' = files w /\ writes w' = writes w.
Proof.
  intros Hp Hnone. destruct (fix_markdown_file_run p fixes w content Hp)
    as (out & Hrun).
  rewrite (rule_found_none fixes content Hnone) in Hrun.
  eexists. split; [exact Hrun|]. split; reflexivity.
Qed.

(** C8: a missing file is skipped.  [fix_markdown_file] returns [False]
    for it, raises nothing and writes nothing, and the loop of [main]
    goes on with the remaining files. *)
Theorem missing_file_is_skipped p fixes rest total w :
  files w !! p = None ->
  fix_markdown_file p fixes w
  = (inr false, World (files w) (writes w) (stdout w ++ [MsgNotFound p])) /\
  main_loop ((p, fixes) :: rest) total w
  = main_loop rest total
      (World (files w) (writes w) (stdout w ++ [MsgNotFound p; MsgBlank])).
Proof.
  intros Hp. split; [now apply fix_markdown_file_missing|].
  cbn [main_loop]. unfold mbind at 1.
  rewrite (fix_markdown_file_missing p fixes w Hp).
  unfold mbind at 1. unfold print. cbn [files writes stdout].
  now rewrite <- app_assoc.
Qed.

(** C9: the rules are applied in list order to the evolving text.  The
    loop ends with the left fold of the rules over the content, that fold
    is what the file holds afterwards (written when a rule was found, and
    equal to the text of the untouched file when none was), and a later
    rule rewrites what an earlier rule put in.  The one other outcome is
    the exception of the codec on a fold that holds a lone surrogate. *)
Theorem rules_fold_in_order p fixes w content :
  file_text w p = Some content ->
  (forall n, exists k out,
     apply_fixes fixes content n w
     = (inr (fold_rules fixes content, (n + k)%nat),
        World (files w) (writes w) (stdout w ++ out))) /\
  (exists res w',
     fix_markdown_file p fixes w = (res, w') /\
     ((res = inr true /\
       files w' !! p = Some (File (fold_rules fixes content))) \/
      (res = inr false /\ files w' = files w /\
       file_text w' p = Some (fold_rules fixes content)) \/
      (res = inl (UnicodeEncodeError p) /\
       encodable (fold_rules fixes content) = false))) /\
  contains (of_ascii "(#b)") (of_ascii "see (#a)") = false /\
  fold_rules [rule "(#a)" "(#b)"; rule "(#b)" "(#c)"] (of_ascii "see (#a)")
  = of_ascii "see (#c)".
Proof.
  intros Hp. split; [|split; [|split; reflexivity]].
  - intros n. destruct (apply_fixes_run fixes content n w)
      as (k & out & Hrun & _). now exists k, out.
  - destruct (fix_markdown_file_run p fixes w content Hp) as (out & Hrun).
    destruct (rule_found fixes content) eqn:E.
    + destruct (encodable (fold_rules fixes content)) eqn:Ee;
        do 2 eexists; (split; [exact Hrun|]).
      * left. split; [reflexivity|]. apply lookup_insert_eq.
      * right. right. now split.
    + do 2 eexists. split; [exact Hrun|]. right. left.
      split; [reflexivity|]. split; [reflexivity|].
      rewrite (fold_rules_not_found fixes content E). exact Hp.
Qed.



Lemma no_match_no_write_witness :
  exists w',
    fix_markdown_file "README.md" docker_fixes sample_world = (inr false, w') /\
    files w' = files sample_world /\ writes w' = writes sample_world.
Proof.
  apply (no_match_no_write "README.md" docker_fixes sample_world sample_readme).
  - reflexivity.
  - intros r Hr. repeat (destruct Hr as [<-|Hr]; [reflexivity|]). destruct Hr.
Defined.

Lemma missing_file_is_skipped_witness :
  fix_markdown_file "EXAMPLES.md" examples_fixes sample_world
  = (inr false, World (files sample_world) [] [MsgNotFound "EXAMPLES.md"]) /\
  main_loop [("EXAMPLES.md"%string, examples_fixes);
             ("ENTERPRISE_GUIDE.md"%string, enterprise_fixes)] 0 sample_world
  = main_loop [("ENTERPRISE_GUIDE.md"%string, enterprise_fixes)] 0
      (World (files sample_world) [] [MsgNotFound "EXAMPLES.md"; MsgBlank]).
Proof.
  apply (missing_file_is_skipped "EXAMPLES.md" examples_fixes
           [("ENTERPRISE_GUIDE.md"%string, enterprise_fixes)] 0 sample_world).
  reflexivity.
Defined.

Lemma rules_fold_in_order_witness :
  (exists k out,
     apply_fixes enterprise_fixes sample_guide 0 sample_world
     = (inr (fold_rules enterprise_fixes sample_guide, (0 + k)%nat),
        World (files sample_world) (writes sample_world)
              (stdout sample_world ++ out))) /\
  (exists res w',
     fix_markdown_file "ENTERPRISE_GUIDE.md" enterprise_fixes sample_world
     = (res, w') /\
     ((res = inr true /\
       files w' !! "ENTERPRISE_GUIDE.md"%string
       = Some (File (fold_rules enterprise_fixes sample_guide))) \/
      (res = inr false /\ files w' = files sample_world /\
       file_text w' "ENTERPRISE_GUIDE.md"
       = Some (fold_rules enterprise_fixes sample_guide)) \/
      (res = inl (UnicodeEncodeError "ENTERPRISE_GUIDE.md") /\
       encodable (fold_rules enterprise_fixes sample_guide) = false))).
Proof.
  destruct (rules_fold_in_order "ENTERPRISE_GUIDE.md" enterprise_fixes
              sample_world sample_guide eq_refl) as (Hloop & Hrun & _).
  split; [exact (Hloop 0%nat)|exact Hrun].
Defined.


(** ** The double-hyphen scenario *)

Lemma monitoring_stale_gone s :
  contains monitoring_stale (replace monitoring_stale monitoring_fixed s)
  = false.
Proof.
  change monitoring_stale with (40 :: of_ascii "#monitoring--alerting)").
  change monitoring_fixed with (40 :: of_ascii "#monitoring-alerting)").
  apply replace_no_new_occurrence;
    [reflexivity|reflexivity|intros t; reflexivity|auto].
Qed.

Lemma compliance_rule_keeps_gone s :
  contains monitoring_stale s = false ->
  contains monitoring_stale (replace compliance_stale compliance_fixed s)
  = false.
Proof.
  intros H.
  change monitoring_stale with (40 :: of_ascii "#monitoring--alerting)") in *.
  change compliance_stale with (40 :: of_ascii "#compliance--auditing)").
  change compliance_fixed with (40 :: of_ascii "#compliance-auditing)").
  apply replace_no_new_occurrence;
    [reflexivity|reflexivity|intros t; reflexivity|].
  intros u t -> Hw. rewrite contains_app_r in H; [discriminate|].
  now apply contains_here.
Qed.

Lemma compliance_rule_keeps_fixed s :
  contains monitoring_fixed s = true ->
  contains monitoring_fixed (replace compliance_stale compliance_fixed s)
  = true.
Proof.
  change monitoring_fixed with (40 :: of_ascii "#monitoring-alerting)").
  change compliance_stale with (40 :: of_ascii "#compliance--auditing)").
  change compliance_fixed with (40 :: of_ascii "#compliance-auditing)").
  apply replace_keeps_occurrence;
    [reflexivity|reflexivity|intros t; reflexivity].
Qed.

Lemma enterprise_fold content :
  fold_rules enterprise_fixes content
  = replace compliance_stale compliance_fixed
      (replace monitoring_stale monitoring_fixed content).
Proof.
  unfold enterprise_fixes, rule. rewrite !fold_rules_cons, !apply_rule_same.
  now rewrite !apply_rule_replace.
Qed.

Lemma rule_found_cons r fixes content :
  rule_found (r :: fixes) content
  = contains (fst r) content || rule_found fixes (apply_rule content r).
Proof. reflexivity. Qed.

Lemma enterprise_found content :
  contains monitoring_stale content = true ->
  rule_found enterprise_fixes content = true.
Proof.
  intros H. unfold enterprise_fixes, rule.
  rewrite !rule_found_cons, !apply_rule_same. cbn [fst].
  fold monitoring_stale. rewrite H. cbn [orb]. now rewrite !orb_true_r.
Qed.

Lemma repaired_twice content :
  contains monitoring_stale content = true ->
  let fixed :=
    replace compliance_stale compliance_fixed
      (replace monitoring_stale monitoring_fixed content) in
  contains monitoring_fixed fixed = true /\
  contains monitoring_stale fixed = false /\
  str_eqb fixed content = false.
Proof.
  intros H fixed.
  assert (Hgone : contains monitoring_stale fixed = false)
    by apply compliance_rule_keeps_gone, monitoring_stale_gone.
  split; [now apply compliance_rule_keeps_fixed, replace_found|].
  split; [exact Hgone|].
  destruct (str_eqb fixed content) eqn:E; [|reflexivity].
  apply str_eqb_eq in E. rewrite E in Hgone. congruence.
Qed.

Lemma enterprise_fold_text content :
  encodable content = true ->
  encodable (fold_rules enterprise_fixes content) = true /\
  (forallb not_cr content = true ->
   forallb not_cr (fold_rules enterprise_fixes content) = true).
Proof.
  intros He. split; [|intros Hc]; apply fold_rules_forallb; try assumption;
    intros r Hr; unfold enterprise_fixes in Hr;
    repeat (destruct Hr as [<-|Hr]; [reflexivity|]); destruct Hr.
Qed.

Lemma fix_specific_issues_run w content :
  file_text w enterprise_file = Some content ->
  contains monitoring_stale content = true ->
  let fixed :=
    replace compliance_stale compliance_fixed
      (replace monitoring_stale monitoring_fixed content) in
  fix_specific_issues w
  = (inr 1%nat,
     World (<[enterprise_file := File fixed]> (files w))
           (writes w ++ [(enterprise_file, fixed)])
           (stdout w ++ [MsgFixing enterprise_file;
                         MsgFixedDoubleDash enterprise_file])).
Proof.
  intros Ht H fixed. destruct (repaired_twice content H) as (_ & _ & Hne).
  destruct (file_text_encodable _ _ _ Ht) as [Henc _].
  pose proof (proj1 (enterprise_fold_text content Henc)) as Hfe.
  rewrite enterprise_fold in Hfe.
  destruct (file_text_some _ _ _ Ht) as (raw & Hp & He & Hc).
  unfold fix_specific_issues. unfold mbind at 1. unfold path_exists.
  rewrite bool_decide_eq_true_2 by (rewrite Hp; eauto).
  unfold mbind at 1. unfold print at 1.
  unfold mbind at 1. unfold read_text. cbn [files writes stdout].
  rewrite Hp, He, <- Hc.
  fold monitoring_stale monitoring_fixed compliance_stale compliance_fixed.
  fold fixed. fold fixed in Hne, Hfe. rewrite Hne. cbn [negb].
  unfold mbind, write_text, print, ret. cbn [files writes stdout].
  rewrite Hp, Hfe. cbn [files writes stdout]. now rewrite <- app_assoc.
Qed.

(** C4: the end-to-end scenario.  For every document that contains
    [(#monitoring--alerting)], replacing it by [(#monitoring-alerting)]
    gives a text that contains the corrected link and no occurrence of the
    stale one; so is the content that either script stores for
    ENTERPRISE_GUIDE.md. *)
Theorem double_hyphen_link_repaired content :
  contains monitoring_stale content = true ->
  (contains monitoring_fixed
     (replace monitoring_stale monitoring_fixed content) = true /\
   contains monitoring_stale
     (replace monitoring_stale monitoring_fixed content) = false) /\
  (contains monitoring_fixed (fold_rules enterprise_fixes content) = true /\
   contains monitoring_stale (fold_rules enterprise_fixes content) = false) /\
  (forall w, file_text w enterprise_file = Some content ->
     (exists w',
        fix_markdown_file enterprise_file enterprise_fixes w = (inr true, w') /\
        files w' !! enterprise_file
        = Some (File (fold_rules enterprise_fixes content))) /\
     (exists w',
        fix_specific_issues w = (inr 1%nat, w') /\
        files w' !! enterprise_file
        = Some (File (fold_rules enterprise_fixes content)))).
Proof.
  intros H. destruct (repaired_twice content H) as (Hfix & Hgone & _).
  split; [split; [now apply replace_found|apply monitoring_stale_gone]|].
  split; [rewrite enterprise_fold; now split|].
  intros w Hp. split.
  - destruct (fix_markdown_file_run enterprise_file enterprise_fixes w
                content Hp) as (out & Hrun).
    destruct (file_text_encodable _ _ _ Hp) as [Henc _].
    rewrite (enterprise_found content H),
      (proj1 (enterprise_fold_text content Henc)) in Hrun.
    eexists. split; [exact Hrun|]. apply lookup_insert_eq.
  - rewrite enterprise_fold.
    eexists. split; [exact (fix_specific_issues_run w content Hp H)|].
    apply lookup_insert_eq.
Qed.

Lemma double_hyphen_link_repaired_witness :
  contains monitoring_fixed
    (replace monitoring_stale monitoring_fixed sample_guide) = true /\
  contains monitoring_stale
    (replace monitoring_stale monitoring_fixed sample_guide) = false.
Proof.
  apply (double_hyphen_link_repaired sample_guide). reflexivity.
Defined.

(** * Further properties of the repair script *)

(** ** Every outcome of [fix_markdown_file] *)

Lemma fix_markdown_file_dir p fixes w :
  files w !! p = Some Dir ->
  fix_markdown_file p fixes w = (inl (IsADirectoryError p), w).
Proof.
  intros Hp. unfold fix_markdown_file.
  unfold mbind at 1. unfold path_exists.
  rewrite bool_decide_eq_true_2 by (rewrite Hp; eauto). cbn [negb].
  unfold mbind at 1. unfold read_text. now rewrite Hp.
Qed.

(** The call returns [True] after exactly one write, of the folded text
    to its own path; or the codec refuses that text and the file is left
    empty; or files and write log are left alone. *)
Lemma fix_markdown_file_effect p fixes w :
  exists out,
    stdout (snd (fix_markdown_file p fixes w)) = stdout w ++ out /\
    ((exists c,
        file_text w p = Some c /\
        fst (fix_markdown_file p fixes w) = inr true /\
        encodable (fold_rules fixes c) = true /\
        files (snd (fix_markdown_file p fixes w))
        = <[p := File (fold_rules fixes c)]> (files w) /\
        writes (snd (fix_markdown_file p fixes w))
        = writes w ++ [(p, fold_rules fixes c)]) \/
     (exists c,
        file_text w p = Some c /\
        fst (fix_markdown_file p fixes w) = inl (UnicodeEncodeError p) /\
        encodable (fold_rules fixes c) = false /\
        files (snd (fix_markdown_file p fixes w))
        = <[p := File []]> (files w) /\
        writes (snd (fix_markdown_file p fixes w)) = writes w ++ [(p, [])]) \/
     (fst (fix_markdown_file p fixes w) <> inr true /\
      files (snd (fix_markdown_file p fixes w)) = files w /\
      writes (snd (fix_markdown_file p fixes w)) = writes w)).
Proof.
  destruct (files w !! p) as [[raw|]|] eqn:Hp.
  - destruct (encodable raw) eqn:He.
    + assert (Ht : file_text w p = Some (universal_newlines raw))
        by (unfold file_text, node_text; now rewrite Hp, He).
      destruct (fix_markdown_file_run p fixes w _ Ht) as (out & Hrun).
      rewrite Hrun. exists out.
      destruct (rule_found fixes (universal_newlines raw)) eqn:E.
      * destruct (encodable (fold_rules fixes (universal_newlines raw)))
          eqn:Ee; (split; [reflexivity|]).
        -- left. exists (universal_newlines raw). now rewrite Ee.
        -- right. left. exists (universal_newlines raw). now rewrite Ee.
      * split; [reflexivity|]. right. right. now split.
    + rewrite (fix_markdown_file_undecodable p fixes w raw Hp He). exists [].
      split; [now rewrite app_nil_r|]. right. right. now split.
  - rewrite (fix_markdown_file_dir p fixes w Hp). exists [].
    split; [now rewrite app_nil_r|]. right. right. now split.
  - rewrite (fix_markdown_file_missing p fixes w Hp). eexists.
    split; [reflexivity|]. right. right. now split.
Qed.

Lemma fix_markdown_file_other_path p fixes w q :
  q <> p ->
  files (snd (fix_markdown_file p fixes w)) !! q = files w !! q.
Proof.
  intros Hq. destruct (fix_markdown_file_effect p fixes w)
    as (out & _ & [(c & _ & _ & _ & Hf & _)
                  |[(c & _ & _ & _ & Hf & _)|(_ & Hf & _)]]); rewrite Hf;
    [now apply lookup_insert_ne|now apply lookup_insert_ne|reflexivity].
Qed.

(** X1: [fix_markdown_file] touches no path but its own: whatever the
    outcome, every other path holds afterwards what it held before, and
    the write log grows by at most one entry, which is for [p]. *)
Theorem fix_markdown_file_frame p fixes w q :
  q <> p ->
  files (snd (fix_markdown_file p fixes w)) !! q = files w !! q /\
  exists l,
    writes (snd (fix_markdown_file p fixes w)) = writes w ++ l /\
    (length l <= 1)%nat /\ forall e, In e l -> fst e = p.
Proof.
  intros Hq. split; [now apply fix_markdown_file_other_path|].
  destruct (fix_markdown_file_effect p fixes w)
    as (out & _ & [(c & _ & _ & _ & _ & Hw)
                  |[(c & _ & _ & _ & _ & Hw)|(_ & _ & Hw)]]); rewrite Hw.
  - eexists. split; [reflexivity|]. split; [simpl; lia|].
    intros e [<-|[]]. reflexivity.
  - eexists. split; [reflexivity|]. split; [simpl; lia|].
    intros e [<-|[]]. reflexivity.
  - exists []. split; [now rewrite app_nil_r|]. split; [simpl; lia|].
    intros e [].
Qed.

Lemma fix_markdown_file_frame_witness :
  files (snd (fix_markdown_file "ENTERPRISE_GUIDE.md" enterprise_fixes
                                sample_world)) !! "README.md"%string
  = files sample_world !! "README.md"%string.
Proof.
  refine (proj1 (fix_markdown_file_frame "ENTERPRISE_GUIDE.md"
                   enterprise_fixes sample_world "README.md" _)).
  discriminate.
Defined.

(** X2: a directory with the name of a document passes the existence test
    and fails at [open]: [fix_markdown_file] raises [IsADirectoryError]
    with nothing printed or written, and the loop of [main] stops there,
    the remaining files unprocessed. *)
Theorem directory_aborts_run p fixes rest total w :
  files w !! p = Some Dir ->
  fix_markdown_file p fixes w = (inl (IsADirectoryError p), w) /\
  main_loop ((p, fixes) :: rest) total w = (inl (IsADirectoryError p), w).
Proof.
  intros Hp. split; [now apply fix_markdown_file_dir|].
  cbn [main_loop]. unfold mbind at 1.
  now rewrite (fix_markdown_file_dir p fixes w Hp).
Qed.

Lemma directory_aborts_run_witness :
  main_loop [("README.md"%string, readme_fixes);
             ("ENTERPRISE_GUIDE.md"%string, enterprise_fixes)] 0
    (World (<["README.md"%string := Dir]> (files sample_world)) [] [])
  = (inl (IsADirectoryError "README.md"),
     World (<["README.md"%string := Dir]> (files sample_world)) [] []).
Proof.
  refine (proj2 (directory_aborts_run "README.md" readme_fixes
                   [("ENTERPRISE_GUIDE.md"%string, enterprise_fixes)] 0
                   (World (<["README.md"%string := Dir]> (files sample_world))
                          [] []) _)).
  reflexivity.
Defined.

Lemma fold_rules_replace fixes : forall content,
  fold_rules fixes content
  = fold_left (fun c r => replace (fst r) (snd r) c) fixes content.
Proof.
  induction fixes as [|r fixes IH]; intros content; [reflexivity|].
  rewrite fold_rules_cons, apply_rule_replace. apply IH.
Qed.

(** X3: the test [old_link in content] decides what is counted and
    printed, never the text: the loop ends with the content that the
    replacements give when each is made without the test. *)
Theorem containment_test_only_counts fixes content n w :
  exists k out,
    apply_fixes fixes content n w
    = (inr (fold_left (fun c r => replace (fst r) (snd r) c) fixes content,
            (n + k)%nat),
       World (files w) (writes w) (stdout w ++ out)) /\
    (k <= length fixes)%nat.
Proof.
  revert content n w. induction fixes as [|[o nw] fixes IH]; intros content n w.
  - exists 0%nat, []. simpl. unfold ret.
    now rewrite Nat.add_0_r, app_nil_r, world_eta.
  - cbn [apply_fixes fold_left fst snd length].
    destruct (contains o content) eqn:E.
    + unfold mbind at 1. unfold print at 1.
      destruct (IH (replace o nw content) (S n)
                  (World (files w) (writes w) (stdout w ++ [MsgFixed o nw])))
        as (k & out & Hrun & Hk).
      rewrite Hrun. exists (S k), (MsgFixed o nw :: out). split; [|lia].
      cbn [files writes stdout]. rewrite <- app_assoc.
      now replace (S n + k)%nat with (n + S k)%nat by lia.
    + rewrite (replace_not_found o nw content E).
      destruct (IH content n w) as (k & out & Hrun & Hk).
      exists k, out. split; [exact Hrun|lia].
Qed.

(** ** The repair of ENTERPRISE_GUIDE.md, run again *)

Lemma compliance_stale_gone s :
  contains compliance_stale (replace compliance_stale compliance_fixed s)
  = false.
Proof.
  change compliance_stale with (40 :: of_ascii "#compliance--auditing)").
  change compliance_fixed with (40 :: of_ascii "#compliance-auditing)").
  apply replace_no_new_occurrence;
    [reflexivity|reflexivity|intros t; reflexivity|auto].
Qed.

Lemma enterprise_fold_clean content :
  contains monitoring_stale (fold_rules enterprise_fixes content) = false /\
  contains compliance_stale (fold_rules enterprise_fixes content) = false.
Proof.
  rewrite enterprise_fold. split.
  - apply compliance_rule_keeps_gone, monitoring_stale_gone.
  - apply compliance_stale_gone.
Qed.

Lemma enterprise_fold_twice content :
  fold_rules enterprise_fixes (fold_rules enterprise_fixes content)
  = fold_rules enterprise_fixes content.
Proof.
  destruct (enterprise_fold_clean content) as [Hm Hc].
  rewrite (enterprise_fold (fold_rules enterprise_fixes content)).
  rewrite (replace_not_found monitoring_stale monitoring_fixed _ Hm).
  apply (replace_not_found compliance_stale compliance_fixed _ Hc).
Qed.

(** X4: after the repair of the enterprise table neither stale link is
    left in the text, whatever the text was, and repairing the result
    again changes nothing. *)
Theorem enterprise_repair_idempotent content :
  contains monitoring_stale (fold_rules enterprise_fixes content) = false /\
  contains compliance_stale (fold_rules enterprise_fixes content) = false /\
  rule_found [rule "(#monitoring--alerting)" "(#monitoring-alerting)";
              rule "(#compliance--auditing)" "(#compliance-auditing)"]
             (fold_rules enterprise_fixes content) = false /\
  fold_rules enterprise_fixes (fold_rules enterprise_fixes content)
  = fold_rules enterprise_fixes content.
Proof.
  destruct (enterprise_fold_clean content) as [Hm Hc].
  split; [exact Hm|]. split; [exact Hc|]. split.
  - apply rule_found_none. intros r [<-|[<-|[]]]; assumption.
  - apply enterprise_fold_twice.
Qed.

Lemma str_eqb_refl a : str_eqb a a = true.
Proof. now apply str_eqb_eq. Qed.

(** Every outcome of the first block of [fix_specific_issues]. *)
Lemma fix_specific_issues_cases w :
  match files w !! enterprise_file with
  | None => fix_specific_issues w = (inr 0%nat, w)
  | Some Dir =>
      fix_specific_issues w
      = (inl (IsADirectoryError enterprise_file),
         World (files w) (writes w) (stdout w ++ [MsgFixing enterprise_file]))
  | Some (File raw) =>
      if encodable raw
      then
        let content := universal_newlines raw in
        let fixed := fold_rules enterprise_fixes content in
        fix_specific_issues w
        = if str_eqb fixed content
          then (inr 0%nat,
                World (files w) (writes w)
                      (stdout w ++ [MsgFixing enterprise_file;
                                    MsgNoChanges enterprise_file]))
          else (inr 1%nat,
                World (<[enterprise_file := File fixed]> (files w))
                      (writes w ++ [(enterprise_file, fixed)])
                      (stdout w ++ [MsgFixing enterprise_file;
                                    MsgFixedDoubleDash enterprise_file]))
      else
        fix_specific_issues w
        = (inl (UnicodeDecodeError enterprise_file),
           World (files w) (writes w)
                 (stdout w ++ [MsgFixing enterprise_file]))
  end.
Proof.
  destruct (files w !! enterprise_file) as [[raw|]|] eqn:Hp.
  - destruct (encodable raw) eqn:He.
    + cbv zeta.
      pose proof (proj1 (enterprise_fold_text (universal_newlines raw)
                           (universal_newlines_encodable raw He))) as Hfe.
      rewrite enterprise_fold in *.
      unfold fix_specific_issues. unfold mbind at 1. unfold path_exists.
      rewrite bool_decide_eq_true_2 by (rewrite Hp; eauto).
      unfold mbind at 1. unfold print at 1.
      unfold mbind at 1. unfold read_text. cbn [files writes stdout].
      rewrite Hp, He.
      fold monitoring_stale monitoring_fixed compliance_stale compliance_fixed.
      destruct (str_eqb _ (universal_newlines raw)); cbn [negb].
      * unfold mbind, print, ret. cbn [files writes stdout].
        now rewrite <- app_assoc.
      * unfold mbind, write_text, print, ret. cbn [files writes stdout].
        rewrite Hp, Hfe. cbn [files writes stdout]. now rewrite <- app_assoc.
    + unfold fix_specific_issues. unfold mbind at 1. unfold path_exists.
      rewrite bool_decide_eq_true_2 by (rewrite Hp; eauto).
      unfold mbind at 1. unfold print at 1.
      unfold mbind at 1. unfold read_text. cbn [files writes stdout].
      now rewrite Hp, He.
  - unfold fix_specific_issues. unfold mbind at 1. unfold path_exists.
    rewrite bool_decide_eq_true_2 by (rewrite Hp; eauto).
    unfold mbind at 1. unfold print at 1.
    unfold mbind at 1. unfold read_text. cbn [files writes stdout].
    now rewrite Hp.
  - unfold fix_specific_issues. unfold mbind at 1. unfold path_exists.
    rewrite bool_decide_eq_false_2; [reflexivity|].
    rewrite Hp. apply is_Some_None.
Qed.

Lemma fix_specific_issues_on_text w content :
  file_text w enterprise_file = Some content ->
  fix_specific_issues w
  = if str_eqb (fold_rules enterprise_fixes content) content
    then (inr 0%nat,
          World (files w) (writes w)
                (stdout w ++ [MsgFixing enterprise_file;
                              MsgNoChanges enterprise_file]))
    else (inr 1%nat,
          World (<[enterprise_file :=
                     File (fold_rules enterprise_fixes content)]> (files w))
                (writes w
                 ++ [(enterprise_file, fold_rules enterprise_fixes content)])
                (stdout w ++ [MsgFixing enterprise_file;
                              MsgFixedDoubleDash enterprise_file])).
Proof.
  intros Ht. destruct (file_text_some _ _ _ Ht) as (raw & Hp & He & ->).
  pose proof (fix_specific_issues_cases w) as H. now rewrite Hp, He in H.
Qed.

(** X5: [fix_specific_issues] can be run again safely: whatever
    ENTERPRISE_GUIDE.md held, a second run right after the first counts no
    fix, writes nothing and leaves every file as the first run left it. *)
Theorem fix_specific_issues_rerun w content :
  file_text w enterprise_file = Some content ->
  exists n w1 out,
    fix_specific_issues w = (inr n, w1) /\
    fix_specific_issues w1
    = (inr 0%nat, World (files w1) (writes w1) (stdout w1 ++ out)).
Proof.
  intros Ht. pose proof (fix_specific_issues_on_text w content Ht) as H1.
  pose proof (enterprise_fold_twice content) as Hid.
  destruct (file_text_encodable _ _ _ Ht) as [Henc Hcr].
  destruct (enterprise_fold_text content Henc) as [Hfe Hfc].
  destruct (str_eqb (fold_rules enterprise_fixes content) content) eqn:E.
  - do 3 eexists. split; [exact H1|].
    match goal with |- fix_specific_issues ?w1 = _ =>
      pose proof (fix_specific_issues_on_text w1 content Ht) as H2 end.
    rewrite E in H2. exact H2.
  - do 3 eexists. split; [exact H1|].
    match goal with |- fix_specific_issues ?w1 = _ =>
      pose proof (fix_specific_issues_on_text w1
                    (fold_rules enterprise_fixes content)) as H2 end.
    rewrite Hid, str_eqb_refl in H2. apply H2.
    apply file_text_written; [apply lookup_insert_eq|exact Hfe|auto].
Qed.

Lemma fix_specific_issues_rerun_witness :
  exists n w1 out,
    fix_specific_issues sample_world = (inr n, w1) /\
    fix_specific_issues w1
    = (inr 0%nat, World (files w1) (writes w1) (stdout w1 ++ out)).
Proof.
  apply (fix_specific_issues_rerun sample_world sample_guide). reflexivity.
Defined.

Lemma fix_specific_issues_files w :
  files (snd (fix_specific_issues w))
  = match file_text w enterprise_file with
    | Some content =>
        if str_eqb (fold_rules enterprise_fixes content) content
        then files w
        else <[enterprise_file := File (fold_rules enterprise_fixes content)]>
               (files w)
    | None => files w
    end.
Proof.
  destruct (file_text w enterprise_file) as [content|] eqn:Ht.
  - rewrite (fix_specific_issues_on_text w content Ht).
    now destruct (str_eqb _ content).
  - pose proof (fix_specific_issues_cases w) as H.
    unfold file_text, node_text in Ht.
    destruct (files w !! enterprise_file) as [[raw|]|];
      [destruct (encodable raw); [discriminate|]| |]; now rewrite H.
Qed.

Lemma enterprise_run_files w :
  files (snd (fix_markdown_file enterprise_file enterprise_fixes w))
  = match file_text w enterprise_file with
    | Some content =>
        if rule_found enterprise_fixes content
        then <[enterprise_file := File (fold_rules enterprise_fixes content)]>
               (files w)
        else files w
    | None => files w
    end.
Proof.
  destruct (file_text w enterprise_file) as [content|] eqn:Ht.
  - destruct (fix_markdown_file_run enterprise_file enterprise_fixes w
                content Ht) as (out & Hrun).
    destruct (file_text_encodable _ _ _ Ht) as [Henc _].
    rewrite (proj1 (enterprise_fold_text content Henc)) in Hrun.
    rewrite Hrun. now destruct (rule_found enterprise_fixes content).
  - unfold file_text, node_text in Ht.
    destruct (files w !! enterprise_file) as [[raw|]|] eqn:Hp.
    + destruct (encodable raw) eqn:He; [discriminate|].
      now rewrite (fix_markdown_file_undecodable _ _ _ raw Hp He).
    + now rewrite (fix_markdown_file_dir _ _ _ Hp).
    + now rewrite (fix_markdown_file_missing _ _ _ Hp).
Qed.

(** X6: the two scripts agree on the text of the files.  From every
    state, the run of [fix_markdown_file] over the enterprise table and
    the first block of [fix_specific_issues] leave the same text under
    every path and the same content under every path but
    ENTERPRISE_GUIDE.md; there they leave the same content too when the
    file held no carriage return.  (On a file with CRLF line ends the
    first may rewrite it with LF where the second writes nothing.) *)
Theorem scripts_agree_on_files w :
  (forall q,
     file_text (snd (fix_markdown_file enterprise_file enterprise_fixes w)) q
     = file_text (snd (fix_specific_issues w)) q) /\
  (forall q, q <> enterprise_file ->
     files (snd (fix_markdown_file enterprise_file enterprise_fixes w)) !! q
     = files (snd (fix_specific_issues w)) !! q) /\
  (forall raw,
     files w !! enterprise_file = Some (File raw) ->
     forallb not_cr raw = true ->
     files (snd (fix_markdown_file enterprise_file enterprise_fixes w))
     = files (snd (fix_specific_issues w))).
Proof.
  unfold file_text at 1 2.
  rewrite enterprise_run_files, fix_specific_issues_files.
  destruct (file_text w enterprise_file) as [content|] eqn:Ht;
    [|repeat split; reflexivity].
  destruct (file_text_encodable _ _ _ Ht) as [Henc Hcr].
  destruct (enterprise_fold_text content Henc) as [Hfe Hfc].
  specialize (Hfc Hcr).
  set (fixed := fold_rules enterprise_fixes content) in *.
  destruct (str_eqb fixed content) eqn:E;
    destruct (rule_found enterprise_fixes content) eqn:F;
    try (repeat split; reflexivity).
  - apply str_eqb_eq in E. split; [|split].
    + intros q. destruct (decide (q = enterprise_file)) as [->|Hq].
      * rewrite lookup_insert_eq. fold (file_text w enterprise_file).
        rewrite Ht. unfold node_text. rewrite Hfe, E.
        now rewrite universal_newlines_id.
      * now rewrite lookup_insert_ne.
    + intros q Hq. now rewrite lookup_insert_ne.
    + intros raw Hp Hraw. apply insert_id. rewrite Hp, E. do 2 f_equal.
      apply file_text_some in Ht as (raw' & Hp' & _ & ->).
      rewrite Hp in Hp'. injection Hp' as <-.
      symmetry. now apply universal_newlines_id.
  - apply fold_rules_not_found in F. fold fixed in F.
    rewrite F, str_eqb_refl in E. discriminate.
Qed.

(** ** The whole run of [main] *)

Lemma line_ends_normalised_trans a b c :
  line_ends_normalised a b -> line_ends_normalised b c ->
  line_ends_normalised a c.
Proof.
  intros [->|(raw & Ha & He & Hb)] Hbc; [exact Hbc|].
  destruct Hbc as [->|(raw' & Hb' & _ & ->)].
  - right. now exists raw.
  - right. exists raw. rewrite Hb in Hb'. injection Hb' as <-.
    now rewrite universal_newlines_twice.
Qed.

Lemma line_ends_normalised_text a b :
  line_ends_normalised a b -> node_text b = node_text a.
Proof.
  intros [->|(raw & -> & He & ->)]; [reflexivity|].
  unfold node_text.
  now rewrite He, (universal_newlines_encodable raw He),
    universal_newlines_twice.
Qed.

Lemma identity_rules_keep_files p fixes w q :
  identity_rules fixes ->
  line_ends_normalised (files w !! q)
                       (files (snd (fix_markdown_file p fixes w)) !! q).
Proof.
  intros Hid. destruct (fix_markdown_file_effect p fixes w)
    as (out & _ & [(c & Ht & _ & _ & Hf & _)
                  |[(c & Ht & _ & He & _)|(_ & Hf & _)]]).
  - rewrite Hf, (fold_rules_identity fixes c Hid).
    destruct (decide (q = p)) as [->|Hq].
    + rewrite lookup_insert_eq.
      apply file_text_some in Ht as (raw & Hp & He & ->).
      right. now exists raw.
    + rewrite lookup_insert_ne by congruence. now left.
  - rewrite (fold_rules_identity fixes c Hid) in He.
    destruct (file_text_encodable _ _ _ Ht) as [Henc _]. congruence.
  - rewrite Hf. now left.
Qed.

Lemma main_loop_frame q todo : forall total w,
  (forall p fixes, In (p, fixes) todo -> p = q \/ identity_rules fixes) ->
  forall q', q' <> q ->
    line_ends_normalised (files w !! q')
                         (files (snd (main_loop todo total w)) !! q').
Proof.
  induction todo as [|[p fixes] todo IH]; intros total w Hall q' Hq';
    [now left|].
  cbn [main_loop]. unfold mbind at 1.
  assert (Hstep : line_ends_normalised
                    (files w !! q')
                    (files (snd (fix_markdown_file p fixes w)) !! q')).
  { destruct (Hall p fixes (or_introl eq_refl)) as [->|Hid].
    - left. now apply fix_markdown_file_other_path.
    - now apply identity_rules_keep_files. }
  destruct (fix_markdown_file p fixes w) as [[e|changed] w1]; [exact Hstep|].
  unfold mbind at 1. unfold print at 1. cbn [snd] in Hstep.
  eapply line_ends_normalised_trans; [exact Hstep|].
  match goal with |- context [main_loop todo ?t ?w2] =>
    apply (IH t w2) end; [|exact Hq'].
  intros p' fixes' Hin. apply Hall. now right.
Qed.

Lemma files_to_fix_shape p fixes :
  In (p, fixes) files_to_fix -> p = enterprise_file \/ identity_rules fixes.
Proof.
  unfold files_to_fix. intros Hin.
  repeat (destruct Hin as [Hin|Hin];
          [inversion Hin; subst; clear Hin;
           first [now left
                 |right; intros r Hr;
                  repeat (destruct Hr as [<-|Hr]; [reflexivity|]);
                  destruct Hr]|]).
  destruct Hin.
Qed.

(** X7: of the seven documents only ENTERPRISE_GUIDE.md can change in
    text under [main]: from every state, and also when the run is cut
    short by an exception, every other path holds afterwards either
    exactly what it held before or, for a file that was read and had a
    link of its table, that content with its CRLF and CR line ends turned
    into LF; so its text, as the scripts read it, is what it was. *)
Theorem main_changes_enterprise_guide_only w q :
  q <> enterprise_file ->
  line_ends_normalised (files w !! q) (files (snd (main w)) !! q) /\
  file_text (snd (main w)) q = file_text w q.
Proof.
  intros Hq.
  assert (H : line_ends_normalised (files w !! q) (files (snd (main w)) !! q)).
  { unfold main. unfold mbind at 1. unfold print at 1.
    unfold mbind at 1. unfold print at 1. unfold mbind at 1.
    match goal with |- context [main_loop files_to_fix 0%nat ?w0] =>
      pose proof (main_loop_frame enterprise_file files_to_fix 0%nat w0
                    files_to_fix_shape q Hq) as H;
      destruct (main_loop files_to_fix 0%nat w0) as [[e|n] w1] end;
      [exact H|].
    cbn [snd files] in H. unfold mbind, print. exact H. }
  split; [exact H|]. now apply line_ends_normalised_text.
Qed.

Lemma main_changes_enterprise_guide_only_witness :
  file_text (snd (main sample_world)) "README.md"
  = file_text sample_world "README.md".
Proof.
  refine (proj2 (main_changes_enterprise_guide_only sample_world
                   "README.md" _)).
  discriminate.
Defined.

(** X8: the number that [main] reports is the number of writes it made:
    when the loop ends normally, the write log has grown by exactly as
    many entries as [total_files_changed] has. *)
Theorem main_loop_counts_writes todo : forall total w n w',
  main_loop todo total w = (inr n, w') ->
  (length (writes w') + total = length (writes w) + n)%nat.
Proof.
  induction todo as [|[p fixes] todo IH]; intros total w n w' Hrun.
  - cbn in Hrun. unfold ret in Hrun. now inversion Hrun.
  - cbn [main_loop] in Hrun. unfold mbind at 1 in Hrun.
    destruct (fix_markdown_file_effect p fixes w)
      as (out & _ & [(c & _ & Hr & _ & _ & Hw)
                    |[(c & _ & Hr & _)|(Hr & _ & Hw)]]);
      destruct (fix_markdown_file p fixes w) as [[e|changed] w1];
      cbn [fst snd] in *; try discriminate.
    + inversion Hr; subst changed.
      unfold mbind at 1 in Hrun. unfold print at 1 in Hrun.
      apply IH in Hrun. cbn [writes] in Hrun. rewrite Hw, length_app in Hrun.
      simpl in Hrun. lia.
    + destruct changed; [congruence|].
      unfold mbind at 1 in Hrun. unfold print at 1 in Hrun.
      apply IH in Hrun. cbn [writes] in Hrun. rewrite Hw in Hrun. lia.
Qed.

Lemma main_loop_counts_writes_witness :
  (length (writes (snd (main_loop files_to_fix 0 sample_world))) + 0
   = length (writes sample_world) + 2)%nat.
Proof.
  apply (main_loop_counts_writes files_to_fix 0 sample_world 2
           (snd (main_loop files_to_fix 0 sample_world))).
  vm_compute. reflexivity.
Defined.

(** * Further properties of the slug generator *)

Lemma strip_marker_hashes n s :
  strip_marker (repeat HASH (S n) ++ s)
  = drop_while is_space (drop_while is_hash s).
Proof.
  unfold strip_marker.
  change (repeat HASH (S n) ++ s) with (HASH :: (repeat HASH n ++ s)).
  change (is_hash HASH) with true. cbv iota.
  change (HASH :: (repeat HASH n ++ s)) with (repeat HASH (S n) ++ s).
  now rewrite drop_hashes.
Qed.

(** X9: the level of the header does not matter: any two markers of one
    or more [#] in front of the same text give the same anchor. *)
Theorem header_level_irrelevant U n m s :
  (1 <= n)%nat -> (1 <= m)%nat ->
  create_github_anchor U (repeat HASH n ++ s)
  = create_github_anchor U (repeat HASH m ++ s).
Proof.
  intros Hn Hm. destruct n as [|n]; [lia|]. destruct m as [|m]; [lia|].
  unfold create_github_anchor, slug. now rewrite !strip_marker_hashes.
Qed.

Lemma header_level_irrelevant_witness :
  create_github_anchor ascii_only (of_ascii "### Quick Start")
  = create_github_anchor ascii_only (of_ascii "# Quick Start").
Proof.
  apply (header_level_irrelevant ascii_only 3 1 (of_ascii " Quick Start"));
    lia.
Defined.

(** ** Letter case *)

Ltac outside_class :=
  repeat (apply orb_false_iff; split);
  first [ apply N.eqb_neq; lia
        | apply andb_false_iff; left; apply N.leb_gt; lia
        | apply andb_false_iff; right; apply N.leb_gt; lia ].

Lemma letter_classes c :
  65 <= c <= 122 ->
  is_space c = false /\ is_hash c = false /\ is_emoji c = false.
Proof.
  intros H. unfold is_space, is_hash, is_emoji, in_range, HASH.
  repeat split; outside_class.
Qed.

Lemma ascii_tolower_class (p : codepoint -> bool) c :
  (forall d, 65 <= d <= 122 -> p d = false) ->
  p (ascii_tolower c) = p c.
Proof.
  intros Hp. unfold ascii_tolower, ascii_isupper, in_range.
  destruct ((65 <=? c) && (c <=? 90)) eqn:E; [|reflexivity].
  apply andb_true_iff in E as [E1 E2].
  apply N.leb_le in E1. apply N.leb_le in E2.
  rewrite !Hp by lia. reflexivity.
Qed.

Lemma ascii_tolower_space c : is_space (ascii_tolower c) = is_space c.
Proof. apply ascii_tolower_class. intros d Hd. apply (letter_classes d Hd). Qed.

Lemma ascii_tolower_hash c : is_hash (ascii_tolower c) = is_hash c.
Proof. apply ascii_tolower_class. intros d Hd. apply (letter_classes d Hd). Qed.

Lemma ascii_tolower_emoji c : is_emoji (ascii_tolower c) = is_emoji c.
Proof. apply ascii_tolower_class. intros d Hd. apply (letter_classes d Hd). Qed.

Lemma ascii_tolower_twice c :
  ascii_tolower (ascii_tolower c) = ascii_tolower c.
Proof.
  destruct (ascii_isupper c) eqn:E.
  - assert (Hc : ascii_tolower c = c + 32)
      by (unfold ascii_tolower; now rewrite E).
    rewrite Hc. unfold ascii_tolower.
    replace (ascii_isupper (c + 32)) with false; [reflexivity|].
    unfold ascii_isupper, in_range in *. apply andb_true_iff in E as [E1 E2].
    apply N.leb_le in E1. apply N.leb_le in E2.
    symmetry. apply andb_false_iff. right. apply N.leb_gt. lia.
  - assert (Hc : ascii_tolower c = c)
      by (unfold ascii_tolower; now rewrite E).
    now rewrite !Hc.
Qed.

Lemma drop_while_map p s :
  (forall c, p (ascii_tolower c) = p c) ->
  drop_while p (List.map ascii_tolower s)
  = List.map ascii_tolower (drop_while p s).
Proof.
  intros Hp. induction s as [|c s IH]; [reflexivity|].
  simpl. rewrite Hp. destruct (p c); [exact IH|reflexivity].
Qed.

Lemma delete_class_map p s :
  (forall c, p (ascii_tolower c) = p c) ->
  delete_class p (List.map ascii_tolower s)
  = List.map ascii_tolower (delete_class p s).
Proof.
  intros Hp. induction s as [|c s IH]; [reflexivity|].
  simpl. rewrite Hp. destruct (p c); simpl; now rewrite IH.
Qed.

Lemma strip_marker_map s :
  strip_marker (List.map ascii_tolower s)
  = List.map ascii_tolower (strip_marker s).
Proof.
  destruct s as [|c s]; [reflexivity|].
  unfold strip_marker. cbn [List.map]. rewrite ascii_tolower_hash.
  destruct (is_hash c); [|reflexivity].
  change (ascii_tolower c :: List.map ascii_tolower s)
    with (List.map ascii_tolower (c :: s)).
  rewrite (drop_while_map is_hash) by apply ascii_tolower_hash.
  apply drop_while_map, ascii_tolower_space.
Qed.

(** On ASCII text [str.lower] is the character-wise ASCII mapping. *)
Lemma lower_from_ascii_map U s : forall before,
  forallb is_ascii s = true ->
  lower_from U before s = List.map ascii_tolower s.
Proof.
  induction s as [|c s IH]; simpl; intros before H; [reflexivity|].
  apply andb_true_iff in H as [Hc Hs]. rewrite (IH _ Hs).
  unfold lower_char, tolower_full. rewrite Hc.
  replace (c =? CAPITAL_SIGMA) with false; [reflexivity|].
  symmetry. apply N.eqb_neq. unfold is_ascii in Hc. apply N.ltb_lt in Hc.
  unfold CAPITAL_SIGMA. lia.
Qed.

Lemma forallb_ascii_map s :
  forallb is_ascii s = true ->
  forallb is_ascii (List.map ascii_tolower s) = true.
Proof.
  induction s as [|c s IH]; simpl; [reflexivity|]. intros H.
  apply andb_true_iff in H as [Hc Hs]. rewrite (IH Hs), andb_true_r.
  pose proof (ascii_tolower_plain c Hc) as Hp.
  now apply andb_true_iff in Hp as [Hp _].
Qed.

Lemma map_tolower_twice s :
  List.map ascii_tolower (List.map ascii_tolower s)
  = List.map ascii_tolower s.
Proof.
  induction s as [|c s IH]; simpl; [reflexivity|].
  now rewrite ascii_tolower_twice, IH.
Qed.

Lemma slug_of_lowered U s :
  forallb is_ascii s = true ->
  slug U (List.map ascii_tolower s) = slug U s.
Proof.
  intros Ha. unfold slug, remove_emojis, lower.
  rewrite strip_marker_map.
  rewrite (delete_class_map is_emoji) by apply ascii_tolower_emoji.
  assert (Hx : forallb is_ascii (delete_class is_emoji (strip_marker s)) = true)
    by now apply delete_class_forallb, strip_marker_forallb.
  rewrite (lower_from_ascii_map U _ [] (forallb_ascii_map _ Hx)).
  rewrite (lower_from_ascii_map U _ [] Hx).
  now rewrite map_tolower_twice.
Qed.

(** X10: anchors do not depend on letter case: two ASCII header lines
    that differ only in the case of their letters have the same anchor,
    and the anchor of a line is that of its lower-cased form. *)
Theorem anchor_ignores_case U s1 s2 :
  forallb is_ascii s1 = true ->
  forallb is_ascii s2 = true ->
  List.map ascii_tolower s1 = List.map ascii_tolower s2 ->
  create_github_anchor U s1 = create_github_anchor U s2 /\
  create_github_anchor U (lower U s1) = create_github_anchor U s1.
Proof.
  intros H1 H2 E. unfold create_github_anchor. split; f_equal.
  - now rewrite <- (slug_of_lowered U s1 H1), E, slug_of_lowered.
  - unfold lower. rewrite (lower_from_ascii_map U s1 [] H1).
    now apply slug_of_lowered.
Qed.

Lemma anchor_ignores_case_witness :
  create_github_anchor ascii_only (of_ascii "## CI/CD Integration")
  = create_github_anchor ascii_only (of_ascii "## ci/cd INTEGRATION").
Proof.
  refine (proj1 (anchor_ignores_case ascii_only
                   (of_ascii "## CI/CD Integration")
                   (of_ascii "## ci/cd INTEGRATION") _ _ _)); reflexivity.
Defined.

(** ** Titles of plain words *)

Lemma plain_facts U c :
  is_plain c = true ->
  is_sep c = false /\ is_hash c = false /\ is_special U c = false /\
  settled U c = true.
Proof.
  intros H.
  assert (Hs : is_ascii_slug_char c = true).
  { unfold is_plain in H. unfold is_ascii_slug_char, is_slug_char.
    destruct (in_range 97 122 c), (in_range 48 57 c), (c =? UNDERSCORE);
      try discriminate; simpl; auto using orb_true_r. }
  assert (Hr : 48 <= c <= 122).
  { unfold is_plain, in_range, UNDERSCORE in H.
    repeat (apply orb_true_iff in H as [H|H]);
      try (apply andb_true_iff in H as [H1 H2];
           apply N.leb_le in H1; apply N.leb_le in H2);
      try apply N.eqb_eq in H; lia. }
  assert (Hsep : is_sep c = false).
  { unfold is_sep, is_hyphen, is_space, in_range, HYPHEN. outside_class. }
  assert (Hh : is_hash c = false).
  { unfold is_hash, HASH. apply N.eqb_neq. lia. }
  destruct (ascii_slug_char_plain c Hs) as [Ha _].
  repeat split; try assumption; [|now apply ascii_slug_char_settled].
  unfold is_special, is_word, isalnum. rewrite Ha.
  unfold is_plain in H. unfold ascii_isalnum.
  destruct (in_range 97 122 c), (in_range 48 57 c), (c =? UNDERSCORE);
    try discriminate; simpl; rewrite ?orb_true_r; reflexivity.
Qed.

Lemma space_settled U : settled U SPACE = true.
Proof. reflexivity. Qed.

Lemma plain_word_cons w :
  plain_word w = true ->
  exists c w', w = c :: w' /\ is_plain c = true /\ forallb is_plain w' = true.
Proof.
  destruct w as [|c w']; [discriminate|]. simpl. intros H.
  apply andb_true_iff in H as [Hc Hw]. now exists c, w'.
Qed.

Lemma join_cons sep w w2 ws :
  join sep (w :: w2 :: ws) = w ++ sep ++ join sep (w2 :: ws).
Proof. reflexivity. Qed.

Lemma join_chars sep (q : codepoint -> bool) words :
  forallb q sep = true ->
  forallb (fun w => forallb q w) words = true ->
  forallb q (join sep words) = true.
Proof.
  intros Hsep. induction words as [|w [|w2 ws] IH]; intros H.
  - reflexivity.
  - simpl in *. now rewrite andb_true_r in H.
  - rewrite join_cons, !forallb_app, Hsep.
    cbn [forallb] in H. apply andb_true_iff in H as [-> H]. simpl.
    now apply IH.
Qed.

Lemma plain_word_chars w : plain_word w = true -> forallb is_plain w = true.
Proof. destruct w; [discriminate|auto]. Qed.

Lemma join_head sep words :
  forallb plain_word words = true ->
  match join sep words with
  | c :: _ => is_plain c = true
  | [] => True
  end.
Proof.
  destruct words as [|w rest]; [exact (fun _ => I)|]. intros H.
  cbn [forallb] in H. apply andb_true_iff in H as [Hw _].
  destruct (plain_word_cons w Hw) as (c & w' & -> & Hc & _).
  destruct rest; exact Hc.
Qed.

Lemma collapse_plain_chars w rest :
  forallb is_plain w = true ->
  collapse_runs false (w ++ rest) = w ++ collapse_runs false rest.
Proof.
  induction w as [|c w IH]; [reflexivity|]. intros H.
  cbn [forallb] in H. apply andb_true_iff in H as [Hc Hw].
  cbn [app collapse_runs].
  destruct (plain_facts ascii_only c Hc) as (-> & _). now rewrite IH.
Qed.

Lemma collapse_plain_word b w rest :
  plain_word w = true ->
  collapse_runs b (w ++ rest) = w ++ collapse_runs false rest.
Proof.
  intros H. destruct (plain_word_cons w H) as (c & w' & -> & Hc & Hw).
  cbn [app collapse_runs].
  destruct (plain_facts ascii_only c Hc) as (-> & _).
  now rewrite collapse_plain_chars.
Qed.

Lemma collapse_join words : forall b,
  forallb plain_word words = true ->
  collapse_runs b (join [SPACE] words) = join [HYPHEN] words.
Proof.
  induction words as [|w [|w2 ws] IH]; intros b H.
  - reflexivity.
  - cbn [forallb] in H. apply andb_true_iff in H as [Hw _].
    cbn [join]. rewrite <- (app_nil_r w) at 1.
    rewrite collapse_plain_word by exact Hw. simpl. apply app_nil_r.
  - cbn [forallb] in H. apply andb_true_iff in H as [Hw H].
    rewrite !join_cons, collapse_plain_word by exact Hw.
    f_equal. change ([SPACE] ++ join [SPACE] (w2 :: ws))
      with (SPACE :: join [SPACE] (w2 :: ws)).
    cbn [collapse_runs]. change (is_sep SPACE) with true. cbv iota.
    cbn [app]. f_equal. now apply IH.
Qed.

Lemma no_trailing_hyphen_word a w :
  plain_word w = true -> no_trailing_hyphen (a ++ w) = true.
Proof.
  intros H. unfold no_trailing_hyphen. rewrite rev_app_distr.
  destruct (rev w) as [|z r] eqn:E.
  - apply (f_equal (@rev _)) in E. rewrite rev_involutive in E.
    subst w. discriminate.
  - simpl. assert (Hz : In z w) by (apply in_rev; rewrite E; now left).
    pose proof (plain_word_chars w H) as Hall.
    rewrite forallb_forall in Hall.
    destruct (plain_facts ascii_only z (Hall z Hz)) as (Hsep & _).
    unfold is_sep in Hsep. apply orb_false_iff in Hsep as [-> _]. reflexivity.
Qed.

Lemma no_trailing_hyphen_join words : forall a,
  words <> [] -> forallb plain_word words = true ->
  no_trailing_hyphen (a ++ join [HYPHEN] words) = true.
Proof.
  induction words as [|w [|w2 ws] IH]; intros a Hne H.
  - congruence.
  - cbn [forallb] in H. apply andb_true_iff in H as [Hw _].
    now apply no_trailing_hyphen_word.
  - cbn [forallb] in H. apply andb_true_iff in H as [Hw H].
    rewrite join_cons, !app_assoc. apply IH; [discriminate|exact H].
Qed.

(** X11: on a title of plain words the generator acts as the textbook
    says: for non-empty words of lower-case ASCII letters, digits and
    underscores, written after the marker with single spaces between
    them, the anchor is [#] followed by the words joined by hyphens. *)
Theorem plain_title_anchor U words :
  forallb plain_word words = true ->
  create_github_anchor U (of_ascii "## " ++ join [SPACE] words)
  = HASH :: join [HYPHEN] words.
Proof.
  intros H. unfold create_github_anchor. f_equal. unfold slug.
  set (t := join [SPACE] words).
  assert (Hchars : forallb (fun c => is_plain c || (c =? SPACE)) t = true).
  { apply join_chars; [reflexivity|].
    eapply forallb_impl; [|exact H]. intros w Hw.
    eapply forallb_impl; [|apply plain_word_chars, Hw].
    now intros c ->. }
  assert (Hm : strip_marker (of_ascii "## " ++ t) = t).
  { change (strip_marker (of_ascii "## " ++ t))
      with (drop_while is_space t).
    apply drop_while_id. pose proof (join_head [SPACE] words H) as Hh.
    fold t in Hh. destruct t as [|c t']; [exact I|].
    destruct (plain_facts U c Hh) as (Hsep & _).
    unfold is_sep in Hsep. now apply orb_false_iff in Hsep as [_ Hsp]. }
  assert (Hset : forallb (settled U) t = true).
  { eapply forallb_impl; [|exact Hchars]. intros c Hc.
    apply orb_true_iff in Hc as [Hc|Hc].
    - now apply plain_facts.
    - apply N.eqb_eq in Hc. subst c. apply space_settled. }
  rewrite Hm. unfold remove_emojis. rewrite (delete_class_id is_emoji).
  2:{ eapply forallb_impl; [|exact Hset]. intros c Hc. unfold settled in Hc.
      now apply andb_true_iff in Hc as [_ Hc]. }
  unfold lower. rewrite lower_from_fixed.
  2:{ eapply forallb_impl; [|exact Hset]. intros c Hc. unfold settled in Hc.
      now apply andb_true_iff in Hc as [Hc _]. }
  rewrite delete_class_id.
  2:{ eapply forallb_impl; [|exact Hchars]. intros c Hc.
      apply orb_true_iff in Hc as [Hc|Hc].
      - destruct (plain_facts U c Hc) as (_ & _ & -> & _). reflexivity.
      - apply N.eqb_eq in Hc. subst c. reflexivity. }
  unfold t. rewrite collapse_join by exact H.
  destruct words as [|w rest] eqn:Ew; [reflexivity|]. rewrite <- Ew in *.
  apply strip_hyphens_id.
  - pose proof (join_head [HYPHEN] words H) as Hh.
    destruct (join [HYPHEN] words) as [|c r]; [reflexivity|].
    destruct (plain_facts U c Hh) as (Hsep & _). unfold is_sep in Hsep.
    apply orb_false_iff in Hsep as [Hy _]. simpl. now rewrite Hy.
  - apply (no_trailing_hyphen_join words []); [subst; discriminate|exact H].
Qed.

Lemma plain_title_anchor_witness :
  create_github_anchor ascii_only (of_ascii "## step by step guide")
  = of_ascii "#step-by-step-guide".
Proof.
  apply (plain_title_anchor ascii_only
           [of_ascii "step"; of_ascii "by"; of_ascii "step"; of_ascii "guide"]).
  reflexivity.
Defined.

(** * Properties of the analysis script *)

(** ** Header lines *)

Lemma collect_In {A B} (f : A -> option B) l b :
  In b (collect f l) <-> exists a, In a l /\ f a = Some b.
Proof.
  induction l as [|a l IH]; simpl.
  - split; [contradiction|]. now intros (a & [] & _).
  - destruct (f a) as [b'|] eqn:E; simpl; rewrite IH; split.
    + intros [<-|(a' & Hin & Hf)]; [exists a; auto|exists a'; auto].
    + intros (a' & [<-|Hin] & Hf); [left; congruence|right; eauto].
    + intros (a' & Hin & Hf). eauto.
    + intros (a' & [<-|Hin] & Hf); [congruence|eauto].
Qed.

Lemma contains_infix l u v : contains l (u ++ l ++ v) = true.
Proof. apply contains_app_r, contains_here, starts_with_app. Qed.

Lemma split_lines_cons c s :
  split_lines (c :: s)
  = if c =? NEWLINE then [] :: split_lines s
    else match split_lines s with
         | line :: lines => (c :: line) :: lines
         | [] => [[c]]
         end.
Proof. reflexivity. Qed.

Lemma split_lines_head s :
  exists line lines v, split_lines s = line :: lines /\ s = line ++ v.
Proof.
  induction s as [|c s (line & lines & v & E & Hs)].
  - now exists [], [], [].
  - rewrite split_lines_cons, E. destruct (c =? NEWLINE).
    + now exists [], (line :: lines), (c :: s).
    + exists (c :: line), lines, v. now rewrite Hs at 1.
Qed.

Lemma split_lines_infix s : forall l,
  In l (split_lines s) -> exists u v, s = u ++ l ++ v.
Proof.
  induction s as [|c s IH]; intros l Hin.
  - destruct Hin as [<-|[]]. now exists [], [].
  - rewrite split_lines_cons in Hin.
    destruct (split_lines_head s) as (line & lines & v & E & Hs).
    rewrite E in Hin, IH. destruct (c =? NEWLINE).
    + destruct Hin as [<-|Hin]; [now exists [], (c :: s)|].
      destruct (IH l Hin) as (u & v' & ->). now exists (c :: u), v'.
    + destruct Hin as [<-|Hin].
      * exists [], v. now rewrite Hs at 1.
      * destruct (IH l (or_intror Hin)) as (u & v' & ->).
        now exists (c :: u), v'.
Qed.

Lemma split_lines_no_newline s : forall l,
  In l (split_lines s) -> forallb not_newline l = true.
Proof.
  induction s as [|c s IH]; intros l Hin.
  - now destruct Hin as [<-|[]].
  - rewrite split_lines_cons in Hin.
    destruct (split_lines_head s) as (line & lines & v & E & _).
    rewrite E in Hin, IH. destruct (c =? NEWLINE) eqn:Ec.
    + destruct Hin as [<-|Hin]; [reflexivity|now apply IH].
    + destruct Hin as [<-|Hin]; [|apply IH; now right].
      simpl. unfold not_newline at 1. rewrite Ec. apply IH. now left.
Qed.

Lemma header_title_some line h :
  header_title line = Some h ->
  line = of_ascii "## " ++ h /\ h <> [].
Proof.
  unfold header_title. destruct (starts_with (of_ascii "## ") line) eqn:E;
    [|discriminate].
  apply starts_with_split in E as (t & ->).
  change (skipn 3 (of_ascii "## " ++ t)) with t.
  destruct t; [discriminate|]. intros [= <-]. now split.
Qed.

Lemma header_title_marked t :
  t <> [] -> header_title (of_ascii "## " ++ t) = Some t.
Proof.
  intros Ht. unfold header_title. rewrite starts_with_app.
  change (skipn 3 (of_ascii "## " ++ t)) with t. now destruct t.
Qed.

(** X12: what [process_markdown_file] takes for a header is sound: every
    extracted title is non-empty, holds no newline, and stands in the
    document right after the marker ["## "]. *)
Theorem find_headers_sound content h :
  In h (find_headers content) ->
  h <> [] /\ forallb not_newline h = true /\
  contains (of_ascii "## " ++ h) content = true.
Proof.
  unfold find_headers. intros Hin.
  apply collect_In in Hin as (line & Hline & Ht).
  apply header_title_some in Ht as [-> Hne].
  split; [exact Hne|]. split.
  - apply split_lines_no_newline in Hline. rewrite forallb_app in Hline.
    now apply andb_true_iff in Hline as [_ H].
  - apply split_lines_infix in Hline as (u & v & ->). apply contains_infix.
Qed.

Lemma find_headers_sound_witness :
  contains (of_ascii "## Quick Start")
           (of_ascii "# Title" ++ [NEWLINE] ++ of_ascii "## Quick Start")
  = true.
Proof.
  apply (find_headers_sound
           (of_ascii "# Title" ++ [NEWLINE] ++ of_ascii "## Quick Start")
           (of_ascii "Quick Start")).
  vm_compute. now left.
Defined.

Lemma split_lines_line l : forall rest,
  forallb not_newline l = true ->
  split_lines (l ++ NEWLINE :: rest) = l :: split_lines rest /\
  split_lines l = [l].
Proof.
  induction l as [|c l IH]; intros rest H; [now split|].
  cbn [forallb] in H. apply andb_true_iff in H as [Hc Hl].
  unfold not_newline in Hc. apply negb_true_iff in Hc.
  destruct (IH rest Hl) as [E1 E2]. cbn [app].
  now rewrite !split_lines_cons, Hc, E1, E2.
Qed.

Lemma split_lines_join lines :
  lines <> [] ->
  forallb (forallb not_newline) lines = true ->
  split_lines (join [NEWLINE] lines) = lines.
Proof.
  induction lines as [|l [|l2 ls] IH]; intros Hne H.
  - congruence.
  - cbn [forallb] in H. apply andb_true_iff in H as [Hl _].
    apply (split_lines_line l [] Hl).
  - cbn [forallb] in H. apply andb_true_iff in H as [Hl H].
    rewrite join_cons.
    change (l ++ [NEWLINE] ++ join [NEWLINE] (l2 :: ls))
      with (l ++ NEWLINE :: join [NEWLINE] (l2 :: ls)).
    rewrite (proj1 (split_lines_line l (join [NEWLINE] (l2 :: ls)) Hl)).
    f_equal. apply IH; [discriminate|exact H].
Qed.

Lemma collect_marked titles :
  forallb good_title titles = true ->
  collect header_title (List.map (app (of_ascii "## ")) titles) = titles.
Proof.
  induction titles as [|t ts IH]; [reflexivity|]. intros H.
  cbn [forallb] in H. apply andb_true_iff in H as [Ht H].
  cbn [List.map collect]. rewrite header_title_marked, IH; auto.
  unfold good_title in Ht. apply andb_true_iff in Ht as [Ht _].
  now destruct t.
Qed.

(** X13: the extraction goes line by line and gives back what was written:
    over a document made of lines without newline, the headers are the
    titles of the lines that start with ["## "], in order; a document of
    header lines only gives back its titles. *)
Theorem find_headers_round_trip lines titles :
  forallb (forallb not_newline) lines = true ->
  forallb good_title titles = true ->
  find_headers (join [NEWLINE] lines) = collect header_title lines /\
  find_headers (join [NEWLINE] (List.map (app (of_ascii "## ")) titles))
  = titles.
Proof.
  intros Hl Ht.
  assert (Hgen : forall ls, forallb (forallb not_newline) ls = true ->
            find_headers (join [NEWLINE] ls) = collect header_title ls).
  { intros ls H. destruct ls as [|l ls']; [reflexivity|].
    unfold find_headers. now rewrite split_lines_join. }
  split; [now apply Hgen|].
  rewrite Hgen; [now apply collect_marked|].
  clear Hl Hgen. induction titles as [|t ts IH]; [reflexivity|].
  cbn [forallb] in Ht. apply andb_true_iff in Ht as [Hg Ht].
  cbn [List.map forallb]. rewrite (IH Ht), andb_true_r.
  unfold good_title in Hg. now apply andb_true_iff in Hg as [_ Hg].
Qed.

Lemma find_headers_round_trip_witness :
  find_headers (join [NEWLINE]
                  (List.map (app (of_ascii "## "))
                            [of_ascii "Overview"; of_ascii "Quick Start"]))
  = [of_ascii "Overview"; of_ascii "Quick Start"].
Proof.
  refine (proj2 (find_headers_round_trip [] 
                   [of_ascii "Overview"; of_ascii "Quick Start"] _ _));
    reflexivity.
Defined.

(** ** The anchor map *)

Lemma word_slug_anchor U s : WordSlug U (create_github_anchor U s) = true.
Proof.
  unfold WordSlug, create_github_anchor. now rewrite slug_kept, slug_hyphens.
Qed.

Section AnalysisFacts.
Variable U : UnicodeData.

Lemma record_headers_run headers : forall m fs,
  record_headers U headers m fs
  = (inr (fold_left (record U) headers m),
     List.map (fun h => RepHeader h (create_github_anchor U h)) headers).
Proof.
  induction headers as [|h headers IH]; intros m fs; [reflexivity|].
  cbn [record_headers fold_left List.map]. unfold rbind at 1. unfold say at 1.
  now rewrite IH.
Qed.

Lemma fold_record_lookup headers : forall m k a,
  fold_left (record U) headers m !! k = Some a ->
  m !! k = Some a \/
  exists h, In h headers /\ k = header_key U h /\
            a = create_github_anchor U h.
Proof.
  induction headers as [|h headers IH]; intros m k a H; [now left|].
  cbn [fold_left] in H. apply IH in H as [H|(h' & Hin & Hk & Ha)].
  - unfold record in H. destruct (decide (header_key U h = k)) as [<-|Hne].
    + rewrite lookup_insert_eq in H. injection H as <-.
      right. exists h. split; [now left|now split].
    + rewrite lookup_insert_ne in H by exact Hne. now left.
  - right. exists h'. split; [now right|now split].
Qed.

Lemma fold_record_present headers : forall m h,
  (In h headers \/ is_Some (m !! header_key U h)) ->
  is_Some (fold_left (record U) headers m !! header_key U h).
Proof.
  induction headers as [|h' headers IH]; intros m h [Hin|Hm];
    try contradiction; try exact Hm.
  - cbn [fold_left]. apply IH. destruct Hin as [->|Hin]; [right|now left].
    unfold record. rewrite lookup_insert_eq. eauto.
  - cbn [fold_left]. apply IH. right. unfold record.
    destruct (decide (header_key U h' = header_key U h)) as [E|Hne].
    + rewrite E, lookup_insert_eq. eauto.
    + now rewrite lookup_insert_ne.
Qed.

Lemma process_markdown_file_run p fs content :
  node_text (fs !! p) = Some content ->
  process_markdown_file U p fs
  = (inr (fold_left (record U) (find_headers content) ∅),
     RepProcessing p
     :: List.map (fun h => RepHeader h (create_github_anchor U h))
                 (find_headers content)).
Proof.
  intros Ht. apply node_text_some in Ht as (raw & Hp & He & ->).
  unfold process_markdown_file.
  unfold rbind at 1. unfold say at 1.
  unfold rbind at 1. unfold rread. rewrite Hp, He.
  now rewrite record_headers_run.
Qed.

End AnalysisFacts.

(** X14: the map that [process_markdown_file] returns for an existing
    file holds, under the key of each header of the document, the anchor
    of a header with that key, and nothing else; every stored anchor is
    well formed. *)
Theorem anchor_map_of_headers U p fs content :
  node_text (fs !! p) = Some content ->
  exists m out,
    process_markdown_file U p fs = (inr m, out) /\
    (forall h, In h (find_headers content) ->
               is_Some (m !! header_key U h)) /\
    (forall k a, m !! k = Some a ->
       WordSlug U a = true /\
       exists h, In h (find_headers content) /\
                 k = header_key U h /\ a = create_github_anchor U h).
Proof.
  intros Hp. do 2 eexists.
  split; [exact (process_markdown_file_run U p fs content Hp)|]. split.
  - intros h Hin. apply fold_record_present. now left.
  - intros k a H. apply fold_record_lookup in H as [H|(h & Hin & Hk & Ha)].
    + rewrite lookup_empty in H. discriminate.
    + split; [subst a; apply word_slug_anchor|]. now exists h.
Qed.

Lemma anchor_map_of_headers_witness :
  exists m out,
    process_markdown_file ascii_only "ENTERPRISE_GUIDE.md" sample_docs
    = (inr m, out) /\
    is_Some (m !! of_ascii "monitoring & alerting").
Proof.
  destruct (anchor_map_of_headers ascii_only "ENTERPRISE_GUIDE.md"
              sample_docs sample_headers_doc eq_refl)
    as (m & out & Hrun & Hkeys & _).
  exists m, out. split; [exact Hrun|].
  apply (Hkeys (of_ascii "Monitoring & Alerting")). vm_compute. now left.
Defined.

(** X15: the analysis is not stopped by a missing document.
    [process_markdown_file] itself opens the file without a test and
    raises [FileNotFoundError] when it is missing; the loop of its [main]
    skips such a file without a line of output, and the whole run ends
    normally whenever each of the seven names is missing or is a file
    that decodes as UTF-8.  A file that does not decode stops the run
    with [UnicodeDecodeError]. *)
Theorem analysis_tolerates_missing U p rest fs :
  fs !! p = None ->
  process_markdown_file U p fs
  = (inl (FileNotFoundError p), [RepProcessing p]) /\
  analysis_loop U (p :: rest) fs = analysis_loop U rest fs /\
  (forall fs',
     (forall q, In q md_files ->
                fs' !! q = None \/ is_Some (node_text (fs' !! q))) ->
     fst (analysis_main U fs') = inr tt) /\
  (forall fs' q raw todo,
     fs' !! q = Some (File raw) -> encodable raw = false ->
     process_markdown_file U q fs'
     = (inl (UnicodeDecodeError q), [RepProcessing q]) /\
     analysis_loop U (q :: todo) fs'
     = (inl (UnicodeDecodeError q), [RepProcessing q])).
Proof.
  intros Hp. split; [|split; [|split]].
  - unfold process_markdown_file. unfold rbind at 1. unfold say at 1.
    unfold rbind at 1. unfold rread. now rewrite Hp.
  - cbn [analysis_loop]. unfold rbind at 1. unfold rexists.
    rewrite bool_decide_eq_false_2 by (rewrite Hp; apply is_Some_None).
    unfold rbind at 1. unfold rret at 1.
    now destruct (analysis_loop U rest fs).
  - intros fs' Hok.
    assert (Hloop : forall todo,
              (forall q, In q todo ->
                         fs' !! q = None \/ is_Some (node_text (fs' !! q))) ->
              fst (analysis_loop U todo fs') = inr tt).
    { induction todo as [|q todo IH]; intros Hq; [reflexivity|].
      cbn [analysis_loop]. unfold rbind at 1. unfold rexists.
      specialize (IH (fun q' H => Hq q' (or_intror H))).
      destruct (Hq q (or_introl eq_refl)) as [Eq|[c Eq]].
      - rewrite Eq, bool_decide_eq_false_2 by apply is_Some_None.
        unfold rbind at 1. unfold rret at 1.
        destruct (analysis_loop U todo fs') as [r out]. exact IH.
      - rewrite bool_decide_eq_true_2
          by (destruct (fs' !! q); [eauto|discriminate]).
        unfold rbind at 1. unfold rbind at 1.
        rewrite (process_markdown_file_run U q fs' c Eq).
        unfold say at 1.
        destruct (analysis_loop U todo fs') as [r out]. exact IH. }
    specialize (Hloop md_files Hok).
    unfold analysis_main. unfold rbind at 1. unfold say at 1.
    unfold rbind at 1. unfold say at 1. unfold rbind at 1.
    destruct (analysis_loop U md_files fs') as [r out]. cbn [fst] in Hloop.
    subst r. reflexivity.
  - intros fs' q raw todo Hq He.
    assert (Hrun : process_markdown_file U q fs'
                   = (inl (UnicodeDecodeError q), [RepProcessing q])).
    { unfold process_markdown_file. unfold rbind at 1. unfold say at 1.
      unfold rbind at 1. unfold rread. now rewrite Hq, He. }
    split; [exact Hrun|].
    cbn [analysis_loop]. unfold rbind at 1. unfold rexists.
    rewrite bool_decide_eq_true_2 by (rewrite Hq; eauto).
    unfold rbind at 1. unfold rbind at 1. now rewrite Hrun.
Qed.

Lemma analysis_tolerates_missing_witness :
  analysis_loop ascii_only ["EXAMPLES.md"%string; "README.md"%string]
                (files sample_world)
  = analysis_loop ascii_only ["README.md"%string] (files sample_world).
Proof.
  refine (proj1 (proj2 (analysis_tolerates_missing ascii_only "EXAMPLES.md"
                          ["README.md"%string] (files sample_world) _))).
  reflexivity.
Defined.

(** * Properties of the link check *)

Lemma contains_split l s :
  contains l s = true -> exists u v, s = u ++ l ++ v.
Proof.
  induction s as [|c s IH]; simpl; intros H.
  - rewrite orb_false_r in H. apply starts_with_split in H as (t & Ht).
    now exists [], t.
  - apply orb_true_iff in H as [H|H].
    + apply starts_with_split in H as (t & Ht). now exists [], t.
    + destruct (IH H) as (u & v & ->). now exists (c :: u), v.
Qed.

Lemma contains_trans x l s :
  contains x l = true -> contains l s = true -> contains x s = true.
Proof.
  intros Hx Hl. apply contains_split in Hx as (u' & v' & ->).
  apply contains_split in Hl as (u & v & ->).
  rewrite <- !app_assoc, (app_assoc u u'). apply contains_infix.
Qed.

Lemma take_drop_while p s : s = take_while p s ++ drop_while p s.
Proof.
  induction s as [|c s IH]; [reflexivity|]. simpl.
  destruct (p c); [simpl; now f_equal|reflexivity].
Qed.

Lemma take_while_forallb p s : forallb p (take_while p s) = true.
Proof.
  induction s as [|c s IH]; [reflexivity|]. simpl.
  destruct (p c) eqn:E; [simpl; now rewrite E|reflexivity].
Qed.

Lemma take_while_all p body c t :
  forallb p body = true -> p c = false ->
  take_while p (body ++ c :: t) = body /\
  drop_while p (body ++ c :: t) = c :: t.
Proof.
  intros Hb Hc. induction body as [|b body IH]; simpl.
  - now rewrite Hc.
  - simpl in Hb. apply andb_true_iff in Hb as [-> Hb].
    destruct (IH Hb) as [-> ->]. now split.
Qed.

Lemma link_text_app body t :
  link_text body ++ t = LPAREN :: HASH :: body ++ RPAREN :: t.
Proof. unfold link_text. simpl. now rewrite <- app_assoc. Qed.

Lemma link_body_some s body :
  link_body s = Some body ->
  forallb not_rparen body = true /\ exists t, s = link_text body ++ t.
Proof.
  unfold link_body. destruct s as [|a [|b rest]]; try discriminate.
  destruct ((a =? LPAREN) && (b =? HASH)) eqn:E; [|discriminate].
  apply andb_true_iff in E as [Ea Eb].
  apply N.eqb_eq in Ea. apply N.eqb_eq in Eb. subst a b.
  pose proof (take_drop_while not_rparen rest) as Hsplit.
  pose proof (drop_while_head not_rparen rest) as Hhead.
  destruct (drop_while not_rparen rest) as [|c t]; [discriminate|].
  intros [= <-]. split; [apply take_while_forallb|].
  exists t. rewrite link_text_app. do 2 f_equal.
  unfold not_rparen in Hhead. apply negb_false_iff, N.eqb_eq in Hhead.
  now subst c.
Qed.

Lemma link_body_of body t :
  forallb not_rparen body = true ->
  link_body (link_text body ++ t) = Some body.
Proof.
  intros Hb. rewrite link_text_app. unfold link_body.
  rewrite !N.eqb_refl. cbn [andb].
  destruct (take_while_all not_rparen body RPAREN t Hb eq_refl) as [-> ->].
  reflexivity.
Qed.

Lemma find_links_skip ok s : forall k,
  find_links ok k s = find_links ok O (skipn k s).
Proof.
  induction s as [|c s IH]; intros [|k]; try reflexivity.
  simpl. apply IH.
Qed.

Lemma skipn_link (body : str) : forall x y t,
  skipn (length body + 2) (x :: body ++ y :: t) = t.
Proof.
  induction body as [|b body IH]; intros x y t; [reflexivity|].
  cbn [length Nat.add app skipn]. apply IH.
Qed.

Lemma find_links_cons ok c rest :
  find_links ok O (c :: rest)
  = match link_body (c :: rest) with
    | Some body =>
        if ok body
        then link_text body :: find_links ok (length body + 2) rest
        else find_links ok O rest
    | None => find_links ok O rest
    end.
Proof. reflexivity. Qed.

(** One step of the search at a place where a link text starts. *)
Lemma find_links_at ok body t :
  forallb not_rparen body = true ->
  ok body = true ->
  find_links ok O (link_text body ++ t)
  = link_text body :: find_links ok O t.
Proof.
  intros Hb Hok. pose proof (link_body_of body t Hb) as Hl.
  rewrite link_text_app in *. rewrite find_links_cons, Hl, Hok.
  unfold link_text. f_equal. rewrite find_links_skip. f_equal.
  apply skipn_link.
Qed.

Lemma find_links_sound ok s : forall l,
  In l (find_links ok O s) ->
  exists body u v,
    l = link_text body /\ forallb not_rparen body = true /\
    ok body = true /\ s = u ++ l ++ v.
Proof.
  remember (length s) as n eqn:Hn. revert s Hn.
  induction n as [n IH] using lt_wf_ind. intros s Hn l Hin.
  destruct s as [|c rest]; [contradiction|].
  assert (Hrest : In l (find_links ok O rest) ->
            exists body u v, l = link_text body /\
              forallb not_rparen body = true /\ ok body = true /\
              c :: rest = u ++ l ++ v).
  { intros H. destruct (IH (length rest) ltac:(subst n; simpl; lia)
                          rest eq_refl l H) as (body & u & v & Hl & Hb & Hok & ->).
    now exists body, (c :: u), v. }
  destruct (link_body (c :: rest)) as [body|] eqn:El.
  - destruct (link_body_some _ _ El) as (Hb & t & Hs).
    destruct (ok body) eqn:Hok.
    + rewrite Hs, find_links_at in Hin by assumption.
      destruct Hin as [<-|Hin]; [now exists body, [], t|].
      destruct (IH (length t)
                  ltac:(subst n; rewrite Hs, length_app; unfold link_text;
                        simpl; lia)
                  t eq_refl l Hin) as (body' & u & v & Hl & Hb' & Hok' & ->).
      exists body', (link_text body ++ u), v. rewrite Hs.
      now rewrite <- !app_assoc.
    + rewrite find_links_cons, El, Hok in Hin. auto.
  - rewrite find_links_cons, El in Hin. auto.
Qed.

(** X16: every issue that the check reports is a link of the document:
    it reads ["(#"], a text without [)], then [")"], the text contains a
    double hyphen or a pictographic character, and the issue occurs in the
    document. *)
Theorem reported_issues_are_links content l :
  In l (issues_found content) ->
  exists body,
    l = link_text body /\ forallb not_rparen body = true /\
    (contains (of_ascii "--") body = true \/ existsb is_emoji body = true) /\
    contains l content = true.
Proof.
  unfold issues_found, double_dash_links, emoji_links. intros Hin.
  apply in_app_or in Hin as [Hin|Hin].
  - destruct (_ && _); [|contradiction].
    apply find_links_sound in Hin as (body & u & v & Hl & Hb & Hok & ->).
    exists body. repeat split; auto using contains_infix.
  - apply find_links_sound in Hin as (body & u & v & Hl & Hb & Hok & ->).
    exists body. repeat split; auto using contains_infix.
Qed.

Lemma reported_issues_are_links_witness :
  exists body,
    of_ascii "(#a--b)" = link_text body /\
    forallb not_rparen body = true /\
    (contains (of_ascii "--") body = true \/ existsb is_emoji body = true) /\
    contains (of_ascii "(#a--b)") (of_ascii "see (#a--b) and (#c)") = true.
Proof.
  apply (reported_issues_are_links (of_ascii "see (#a--b) and (#c)")
           (of_ascii "(#a--b)")).
  vm_compute. now left.
Defined.

Lemma double_dash_links_found ok u body v :
  forallb not_rparen body = true -> ok body = true ->
  find_links ok O (u ++ link_text body ++ v) <> [].
Proof.
  intros Hb Hok. induction u as [|c u IH].
  - cbn [app]. now rewrite find_links_at.
  - cbn [app]. rewrite find_links_cons.
    destruct (link_body _) as [body'|]; [|exact IH].
    destruct (ok body'); [discriminate|exact IH].
Qed.

Lemma guard_holds content body :
  contains (of_ascii "--") body = true ->
  contains (link_text body) content = true ->
  contains (of_ascii "--") content && contains (of_ascii "(#") content = true.
Proof.
  intros Hdd Hl. apply andb_true_iff. split.
  - apply (contains_trans _ (link_text body)); [|exact Hl].
    apply contains_split in Hdd as (u & v & ->).
    change (link_text (u ++ of_ascii "--" ++ v))
      with ([LPAREN; HASH] ++ (u ++ of_ascii "--" ++ v) ++ [RPAREN]).
    rewrite <- !app_assoc, (app_assoc [LPAREN; HASH] u).
    apply contains_infix.
  - apply (contains_trans _ (link_text body)); [|exact Hl].
    apply contains_here. reflexivity.
Qed.

(** X17: the check misses no such link.  A document that holds a link
    ["(#...)"] without inner [)] whose text has a double hyphen, or a
    pictographic character, has at least one issue reported. *)
Theorem broken_link_is_reported u body v :
  forallb not_rparen body = true ->
  contains (of_ascii "--") body = true \/ existsb is_emoji body = true ->
  issues_found (u ++ link_text body ++ v) <> [].
Proof.
  intros Hb [Hok|Hok]; unfold issues_found.
  - rewrite (guard_holds _ body Hok) by apply contains_infix.
    pose proof (double_dash_links_found (contains (of_ascii "--")) u body v
                  Hb Hok) as H.
    unfold double_dash_links. destruct (find_links _ _ _); [congruence|].
    discriminate.
  - pose proof (double_dash_links_found (existsb is_emoji) u body v Hb Hok)
      as H.
    unfold emoji_links. destruct (find_links (existsb is_emoji) _ _);
      [congruence|].
    destruct (if _ : bool then _ else _); discriminate.
Qed.

Lemma broken_link_is_reported_witness :
  issues_found (of_ascii "See " ++ link_text (of_ascii "monitoring--alerting")
                ++ of_ascii ".") <> [].
Proof.
  apply (broken_link_is_reported (of_ascii "See ")
           (of_ascii "monitoring--alerting") (of_ascii "."));
    [reflexivity|left; reflexivity].
Defined.

(** X18: the test [if "--" in content and "(#" in content] in front of
    the first search never changes the result: the issues are the matches
    of the first pattern followed by those of the second. *)
Theorem issues_guard_redundant content :
  issues_found content = double_dash_links content ++ emoji_links content.
Proof.
  unfold issues_found.
  destruct (double_dash_links content) as [|l ls] eqn:E.
  - now destruct (_ && _).
  - assert (Hin : In l (double_dash_links content)) by (rewrite E; now left).
    apply find_links_sound in Hin as (body & u & v & -> & _ & Hok & ->).
    rewrite (guard_holds _ body Hok) by apply contains_infix.
    reflexivity.
Qed.

(** ** Generated anchors under the link check *)

Lemma no_double_hyphen_no_dashes s :
  no_double_hyphen s = true -> contains (of_ascii "--") s = false.
Proof.
  induction s as [|c s IH]; [reflexivity|]. intros H.
  change (contains (of_ascii "--") (c :: s))
    with (starts_with (of_ascii "--") (c :: s) || contains (of_ascii "--") s).
  rewrite IH by (eapply no_double_hyphen_tail, H). rewrite orb_false_r.
  destruct s as [|d r]; [simpl; apply andb_false_r|].
  rewrite no_double_hyphen_cons in H. apply andb_true_iff in H as [H _].
  apply negb_true_iff in H. unfold is_hyphen, HYPHEN in H.
  change (starts_with (of_ascii "--") (c :: d :: r))
    with ((45 =? c) && ((45 =? d) && true)).
  now rewrite andb_true_r, (N.eqb_sym 45 c), (N.eqb_sym 45 d).
Qed.

Lemma settled_no_emoji U s :
  forallb (settled U) s = true -> existsb is_emoji s = false.
Proof.
  induction s as [|c s IH]; [reflexivity|]. simpl. intros H.
  apply andb_true_iff in H as [Hc Hs]. unfold settled in Hc.
  apply andb_true_iff in Hc as [_ Hc]. apply negb_true_iff in Hc.
  now rewrite Hc, IH.
Qed.

Lemma kept_no_paren U s :
  forallb (is_kept_char U) s = true ->
  forallb not_rparen s = true /\
  forallb (fun c => negb (c =? LPAREN)) s = true.
Proof.
  intros H. split; (eapply forallb_impl; [|exact H]); intros c Hc;
    apply negb_true_iff; (destruct (c =? _) eqn:E; [|reflexivity]);
    apply N.eqb_eq in E; subst c; discriminate Hc.
Qed.

Lemma link_body_no_lparen c s :
  (c =? LPAREN) = false -> link_body (c :: s) = None.
Proof. intros Hc. unfold link_body. destruct s; [reflexivity|]. now rewrite Hc. Qed.

Lemma no_lparen_no_links ok s :
  forallb (fun c => negb (c =? LPAREN)) s = true -> find_links ok O s = [].
Proof.
  induction s as [|c s IH]; [reflexivity|]. intros H.
  cbn [forallb] in H. apply andb_true_iff in H as [Hc Hs].
  apply negb_true_iff in Hc.
  rewrite find_links_cons, link_body_no_lparen by exact Hc. now apply IH.
Qed.

Lemma clean_link_not_found U ok t :
  forallb (is_kept_char U) t = true -> ok t = false ->
  find_links ok O (LPAREN :: HASH :: t ++ [RPAREN]) = [].
Proof.
  intros Hk Hok. destruct (kept_no_paren U t Hk) as [Hr Hl].
  rewrite find_links_cons.
  pose proof (link_body_of t [] Hr) as Hb.
  rewrite app_nil_r in Hb. unfold link_text in Hb. rewrite Hb, Hok.
  apply no_lparen_no_links.
  change (HASH :: t ++ [RPAREN]) with ([HASH] ++ t ++ [RPAREN]).
  rewrite !forallb_app. apply andb_true_iff. split; [reflexivity|].
  apply andb_true_iff. split; [exact Hl|reflexivity].
Qed.

(** X19: a link written with the anchor of the generator passes the
    check: for every header line, ["("] followed by
    [create_github_anchor] of the line and [")"] is reported neither for a
    double hyphen nor for a pictographic character. *)
Theorem generated_link_passes_check U h :
  lower_closed U -> lower_avoids_emoji U ->
  issues_found (LPAREN :: create_github_anchor U h ++ [RPAREN]) = [].
Proof.
  intros Hc He.
  unfold issues_found, double_dash_links, emoji_links, create_github_anchor.
  change (LPAREN :: (HASH :: slug U h) ++ [RPAREN])
    with (LPAREN :: HASH :: slug U h ++ [RPAREN]).
  rewrite (clean_link_not_found U (contains (of_ascii "--")) (slug U h)
             (slug_kept U h)).
  - rewrite (clean_link_not_found U (existsb is_emoji) (slug U h)
               (slug_kept U h)); [now destruct (_ && _)|].
    apply (settled_no_emoji U). now apply slug_settled.
  - apply no_double_hyphen_no_dashes.
    pose proof (slug_hyphens U h) as H. unfold hyphens_ok in H.
    now apply andb_true_iff in H as [_ H].
Qed.

Lemma generated_link_passes_check_witness :
  issues_found
    (LPAREN :: create_github_anchor ascii_only
                 (of_ascii "## Monitoring & Alerting") ++ [RPAREN]) = [].
Proof.
  apply (generated_link_passes_check ascii_only
           (of_ascii "## Monitoring & Alerting")
           ascii_only_closed ascii_only_avoids_emoji).
Defined.

(** ** Keys of the anchor map *)

Lemma delete_class_app p a b :
  delete_class p (a ++ b) = delete_class p a ++ delete_class p b.
Proof.
  induction a as [|c a IH]; [reflexivity|]. simpl.
  destruct (p c); simpl; now rewrite IH.
Qed.

Lemma space_not_emoji c : is_space c = true -> is_emoji c = false.
Proof.
  unfold is_space, is_emoji, in_range. intros H.
  repeat (apply orb_true_iff in H as [H|H]);
    try (apply andb_true_iff in H as [H1 H2];
         apply N.leb_le in H1; apply N.leb_le in H2);
    try apply N.eqb_eq in H; outside_class.
Qed.

(** X20: decoration in front of a title does not change the key under
    which [process_markdown_file] stores it: pictographic characters
    followed by whitespace are dropped, so a decorated header and the
    plain one share a key. *)
Theorem header_key_ignores_decoration U e ws t :
  forallb is_emoji e = true ->
  forallb is_space ws = true ->
  header_key U (e ++ ws ++ t) = header_key U t.
Proof.
  intros He Hws. unfold header_key, remove_emojis. f_equal.
  rewrite !delete_class_app, (delete_class_all is_emoji e He).
  rewrite (delete_class_id is_emoji ws).
  2:{ eapply forallb_impl; [|exact Hws]. intros c Hc.
      now rewrite (space_not_emoji c Hc). }
  cbn [app]. unfold strip_space. now rewrite drop_while_app.
Qed.

Lemma header_key_ignores_decoration_witness :
  header_key ascii_only ([0x1F680; 32] ++ of_ascii "Quick Start")
  = header_key ascii_only (of_ascii "Quick Start").
Proof.
  apply (header_key_ignores_decoration ascii_only [0x1F680] [32]
           (of_ascii "Quick Start")); reflexivity.
Defined.

(** ** The files that the check reads *)

Lemma rbind_local {A B} (m : R A) (k : A -> R B) (fs fs' : gmap string node) :
  m fs = m fs' -> (forall a, k a fs = k a fs') ->
  rbind m k fs = rbind m k fs'.
Proof.
  intros Hm Hk. unfold rbind. rewrite Hm.
  destruct (m fs') as [[e|a] out]; [reflexivity|]. now rewrite Hk.
Qed.

Lemma rexists_local p (fs fs' : gmap string node) :
  fs !! p = fs' !! p -> rexists p fs = rexists p fs'.
Proof. intros H. unfold rexists. now rewrite H. Qed.

Lemma rread_local p (fs fs' : gmap string node) :
  fs !! p = fs' !! p -> rread p fs = rread p fs'.
Proof. intros H. unfold rread. now rewrite H. Qed.

Lemma say_issues_local l (fs fs' : gmap string node) :
  say_issues l fs = say_issues l fs'.
Proof.
  induction l as [|i l IH]; [reflexivity|].
  cbn [say_issues]. now apply rbind_local.
Qed.

Lemma check_files_local todo : forall fs fs',
  (forall p, In p todo -> fs !! p = fs' !! p) ->
  check_files todo fs = check_files todo fs'.
Proof.
  induction todo as [|p todo IH]; intros fs fs' H; [reflexivity|].
  pose proof (H p (or_introl eq_refl)) as Hp.
  cbn [check_files]. apply rbind_local; [now apply rexists_local|].
  intros found. apply rbind_local.
  2:{ intros u. apply IH. intros q Hq. apply H. now right. }
  destruct found; [|reflexivity].
  apply rbind_local; [reflexivity|]. intros u.
  apply rbind_local; [now apply rread_local|]. intros content.
  destruct (issues_found content) as [|issue more]; [reflexivity|].
  apply rbind_local; [reflexivity|]. intros u'. apply say_issues_local.
Qed.

(** X21: the check never looks at ENTERPRISE_GUIDE.md: what the second
    loop of [fix_specific_issues] returns and prints is the same whatever
    that path holds, so links left broken there go unreported. *)
Theorem check_skips_enterprise_guide fs n :
  check_files other_md_files (<[enterprise_file := n]> fs)
  = check_files other_md_files fs.
Proof.
  apply check_files_local. intros p Hp.
  assert (Hne : enterprise_file <> p).
  { intros E. rewrite <- E in Hp. unfold other_md_files, enterprise_file in Hp.
    repeat (destruct Hp as [Hp|Hp]; [discriminate Hp|]). destruct Hp. }
  now apply lookup_insert_ne.
Qed.
